(** * Held-out proportion sweep of "Comparing Various Online Solvers"

    A shallow embedding of cells In [3] and In [4] of the notebook
    [_posts/scikit/Comparing-various-online-solvers/2015-06-30-Comparing
    Various Online Solvers.html], and the properties of the sweep that the
    repository's specification states about it.

    The notebook is glue around scikit-learn and NumPy.  The glue (three
    nested loops, two accumulating lists, one [RandomState] per classifier)
    is embedded as written; the libraries it calls are an interface
    ([Sklearn]) that the development is parametric in.

    A second part embeds the glue of the notebook
    [_posts/scikit/probability-calibration/probability-calibration.ipynb]:
    the relabelling of the blobs and the two plot cells, over NumPy arrays
    as lists. *)

From Stdlib Require Import String List ZArith QArith Qround Bool Lia Lqa.
From Stdlib Require Import Permutation Sorted DecimalString.
Import ListNotations.

Set Implicit Arguments.

(** ** NumPy scalars and reductions *)

Module NumPy.

(** A float64 value as the notebook can produce it: a number, or the
    not-a-number that [np.mean] returns on an empty array.  Numbers are
    exact rationals: binary64 rounding is not modelled. *)
Inductive float : Type :=
| Num (q : Q)
| NaN.

Definition add (a b : float) : float :=
  match a, b with
  | Num x, Num y => Num (x + y)
  | _, _ => NaN
  end.

Definition sub (a b : float) : float :=
  match a, b with
  | Num x, Num y => Num (x - y)
  | _, _ => NaN
  end.

(** A boolean array element read as a number ([True] is 1). *)
Definition of_bool (b : bool) : float := Num (if b then 1 else 0).

Definition sum (a : list float) : float := fold_left add a (Num 0).

Definition size (a : list float) : Q := inject_Z (Z.of_nat (List.length a)).

(** [np.mean a]: the sum over the number of elements; NaN on an empty
    array (NumPy warns and returns nan), NaN as soon as an element is. *)
Definition mean (a : list float) : float :=
  match a with
  | [] => NaN
  | _ :: _ =>
      match sum a with
      | Num s => Num (s / size a)
      | NaN => NaN
      end
  end.

(** [a == b] on two label arrays of one shape, element by element.
    [predict] returns one label per row of its argument, so the two
    arrays the notebook compares have one shape.  On arrays of two shapes
    NumPy broadcasts, answers with a scalar or raises, depending on the
    shapes and on its version; that is not modelled: the list stops with
    the shorter array. *)
Fixpoint equal {L : Type} (eqb : L -> L -> bool) (a b : list L) : list bool :=
  match a, b with
  | x :: a', y :: b' => eqb x y :: equal eqb a' b'
  | _, _ => []
  end.

(** Equality of floats up to the representation of the rational. *)
Definition feq (a b : float) : Prop :=
  match a, b with
  | Num x, Num y => x == y
  | NaN, NaN => True
  | _, _ => False
  end.

(** The closed unit interval; NaN is outside of it. *)
Definition in_unit (a : float) : Prop :=
  match a with
  | Num x => 0 <= x /\ x <= 1
  | NaN => False
  end.

End NumPy.

Import NumPy.

(** ** The libraries the notebook calls *)

(** Result of a Python call: a value, or a raised exception. *)
Inductive PyResult (E A : Type) : Type :=
| Ok (a : A)
| Raise (e : E).
Arguments Ok {E A} a.
Arguments Raise {E A} e.

(** The four arrays [train_test_split] returns. *)
Record Split (F L : Type) : Type := mkSplit
  { X_train : list F;
    X_test : list F;
    y_train : list L;
    y_test : list L }.

(** What the notebook uses of scikit-learn and NumPy.

    - [RandomState] is the state of a [np.random.RandomState] object and
      [RandomState_new seed] the state of a freshly constructed one;
    - [train_test_split X y test_size rng] draws from [rng], which it
      advances, and returns the four arrays or raises;
    - an [Estimator] is the state of a classifier object; [fit] trains it
      in place (here: returns the new state) or raises.  An estimator built
      without [random_state] draws from NumPy's global generator, whose
      state is [Entropy]: [fit] reads and advances it;
    - [predict] reads the estimator and returns labels or raises. *)
Class Sklearn : Type :=
  { Features : Type;
    Label : Type;
    label_eqb : Label -> Label -> bool;
    Exn : Type;
    RandomState : Type;
    RandomState_new : Z -> RandomState;
    Entropy : Type;
    Estimator : Type;
    train_test_split :
      list Features -> list Label -> Q -> RandomState ->
      RandomState * PyResult Exn (Split Features Label);
    fit :
      Estimator -> list Features -> list Label -> Entropy ->
      Entropy * PyResult Exn Estimator;
    predict : Estimator -> list Features -> PyResult Exn (list Label) }.

(** ** Plotly objects built by the notebook *)

Record Scatter : Type := mkScatter
  { sc_x : list Q;
    sc_y : list float;
    sc_mode : string;
    sc_name : string }.

Record Layout : Type := mkLayout
  { xaxis_title : string;
    yaxis_title : string }.

Record Figure : Type := mkFigure
  { fig_data : list Scatter;
    fig_layout : Layout }.

Section Notebook.

Context {lib : Sklearn}.

(** *** Calls made to the outside, in order *)

Inductive Event : Type :=
| EvPrint (line : string)
| EvRandomState (seed : Z)
| EvSplit (test_size : Q) (rng0 : RandomState)
          (res : PyResult Exn (Split Features Label))
| EvFit (c : Estimator) (X : list Features) (y : list Label)
        (res : PyResult Exn Estimator)
| EvPredict (c : Estimator) (X : list Features)
            (res : PyResult Exn (list Label)).

(** *** The interpreter state the cell reads and writes

    [np_random] is NumPy's global generator, [rng], [clf] and [data] are
    the notebook's variables of these names, and [calls] lists the calls
    made so far, oldest first (the [EvPrint] entries are standard
    output). *)
Record World : Type := mkWorld
  { np_random : Entropy;
    rng : RandomState;
    clf : Estimator;
    data : list Scatter;
    calls : list Event }.

Definition emit (ev : Event) (w : World) : World :=
  mkWorld (np_random w) (rng w) (clf w) (data w) (calls w ++ [ev]).

(** *** Statements: state passing, with exceptions that keep the state *)

Definition M (A : Type) : Type := World -> World * PyResult Exn A.

Definition ret {A : Type} (a : A) : M A := fun w => (w, Ok a).

Definition bind {A B : Type} (m : M A) (k : A -> M B) : M B :=
  fun w =>
    match m w with
    | (w', Ok a) => k a w'
    | (w', Raise e) => (w', Raise e)
    end.

Notation "x <- m ;; k" := (bind m (fun x => k))
  (at level 61, m at next level, right associativity).
Notation "m ;;; k" := (bind m (fun _ => k))
  (at level 61, right associativity).

(** [for x in xs: acc = body(x, acc)] *)
Fixpoint for_in {A S : Type} (xs : list A) (body : A -> S -> M S) (acc : S)
  : M S :=
  match xs with
  | [] => ret acc
  | x :: xs' => acc' <- body x acc ;; for_in xs' body acc'
  end.

(** [range(n)] *)
Definition range (n : Z) : list Z := map Z.of_nat (seq 0 (Z.to_nat n)).

(** *** The primitive statements of cell In [4] *)

(** [print(line)] *)
Definition print (line : string) : M unit :=
  fun w => (emit (EvPrint line) w, Ok tt).

(** [rng = np.random.RandomState(seed)] *)
Definition assign_rng (seed : Z) : M unit :=
  fun w =>
    (mkWorld (np_random w) (RandomState_new seed) (clf w) (data w)
             (calls w ++ [EvRandomState seed]), Ok tt).

(** the loop header's [clf = ...] *)
Definition assign_clf (c : Estimator) : M unit :=
  fun w => (mkWorld (np_random w) (rng w) c (data w) (calls w), Ok tt).

(** [data = []] *)
Definition reset_data : M unit :=
  fun w => (mkWorld (np_random w) (rng w) (clf w) [] (calls w), Ok tt).

(** [data.append(trace)] *)
Definition data_append (trace : Scatter) : M unit :=
  fun w =>
    (mkWorld (np_random w) (rng w) (clf w) (data w ++ [trace]) (calls w),
     Ok tt).

Definition read_data : M (list Scatter) := fun w => (w, Ok (data w)).

(** [train_test_split(X, y, test_size=i, random_state=rng)] *)
Definition call_train_test_split (X : list Features) (y : list Label)
    (i : Q) : M (Split Features Label) :=
  fun w =>
    let (rng', res) := train_test_split X y i (rng w) in
    (mkWorld (np_random w) rng' (clf w) (data w)
             (calls w ++ [EvSplit i (rng w) res]), res).

(** [clf.fit(X_train, y_train)]; a call that raises leaves [clf] as it
    was (nothing reads it afterwards). *)
Definition call_fit (Xtr : list Features) (ytr : list Label) : M unit :=
  fun w =>
    let (ent', res) := fit (clf w) Xtr ytr (np_random w) in
    let ev := EvFit (clf w) Xtr ytr res in
    match res with
    | Ok c' => (mkWorld ent' (rng w) c' (data w) (calls w ++ [ev]), Ok tt)
    | Raise e =>
        (mkWorld ent' (rng w) (clf w) (data w) (calls w ++ [ev]), Raise e)
    end.

(** [clf.predict(X_test)] *)
Definition call_predict (Xte : list Features) : M (list Label) :=
  fun w =>
    let res := predict (clf w) Xte in
    (emit (EvPredict (clf w) Xte res) w, res).

(** *** Cells In [3] and In [4] *)

(** [1 - np.mean(y_pred == y_test)] *)
Definition error_rate (y_pred y_true : list Label) : float :=
  sub (Num 1) (mean (map of_bool (equal label_eqb y_pred y_true))).

(** The same quantity in the specification's words: 1 minus the fraction
    of the predicted test labels that match the true test labels.  The
    fraction of no label at all is undefined (NaN). *)
Definition matching (y_pred y_true : list Label) : nat :=
  List.length
    (filter (fun p => label_eqb (fst p) (snd p)) (combine y_pred y_true)).

Definition fraction_matching (y_pred y_true : list Label) : float :=
  match y_true with
  | [] => NaN
  | _ :: _ =>
      Num (inject_Z (Z.of_nat (matching y_pred y_true))
           / inject_Z (Z.of_nat (List.length y_true)))
  end.

(** *** Reading the list of calls *)

Definition is_split (ev : Event) : bool :=
  match ev with EvSplit _ _ _ => true | _ => false end.

Definition is_reseed (ev : Event) : bool :=
  match ev with EvRandomState _ => true | _ => false end.

Definition is_library_call (ev : Event) : bool :=
  match ev with
  | EvSplit _ _ _ | EvFit _ _ _ _ | EvPredict _ _ _ => true
  | _ => false
  end.

(** The test size a [train_test_split] call was given. *)
Definition split_test_size (ev : Event) : option Q :=
  match ev with EvSplit i _ _ => Some i | _ => None end.

(** The generator state a [train_test_split] call drew from. *)
Definition split_generator (ev : Event) : option RandomState :=
  match ev with EvSplit _ g _ => Some g | _ => None end.

(** The [train_test_split] calls of a list of calls, in order. *)
Definition splits (evs : list Event) : list Event := filter is_split evs.

(** The lines [print] wrote, in order. *)
Fixpoint printed (evs : list Event) : list string :=
  match evs with
  | [] => []
  | EvPrint line :: evs' => line :: printed evs'
  | _ :: evs' => printed evs'
  end.

Definition is_fit (ev : Event) : bool :=
  match ev with EvFit _ _ _ _ => true | _ => false end.

Definition is_predict (ev : Event) : bool :=
  match ev with EvPredict _ _ _ => true | _ => false end.

(** The classifier state after the calls [evs], started from [c]: the
    state the last [fit] that returned has left. *)
Fixpoint fitted (c : Estimator) (evs : list Event) : Estimator :=
  match evs with
  | [] => c
  | EvFit _ _ _ (Ok c') :: evs' => fitted c' evs'
  | _ :: evs' => fitted c evs'
  end.

(** [threads c evs]: among the calls [evs], every [fit] and every [predict]
    is made on the classifier state at hand, [c] at first and after a [fit]
    that returned the state it returned. *)
Fixpoint threads (c : Estimator) (evs : list Event) : Prop :=
  match evs with
  | [] => True
  | EvFit c0 _ _ res :: evs' =>
      c0 = c /\
      match res with
      | Ok c' => threads c' evs'
      | Raise _ => threads c evs'
      end
  | EvPredict c0 _ _ :: evs' => c0 = c /\ threads c evs'
  | _ :: evs' => threads c evs'
  end.

(** The exception a call raised, if it did. *)
Definition raised (ev : Event) : option Exn :=
  match ev with
  | EvSplit _ _ (Raise e) => Some e
  | EvFit _ _ _ (Raise e) => Some e
  | EvPredict _ _ (Raise e) => Some e
  | _ => None
  end.

(** A call that compared no label: a split with an empty test set, or a
    prediction with no label. *)
Definition compares_nothing (ev : Event) : Prop :=
  match ev with
  | EvSplit _ _ (Ok sp) => y_test sp = []
  | EvPredict _ _ (Ok yp) => yp = []
  | _ => False
  end.

(** *** Reading the rounds off the list of calls *)

Definition is_print (ev : Event) : bool :=
  match ev with EvPrint _ => true | _ => false end.

(** [evs] begins with a printed line. *)
Definition opens_iteration (evs : list Event) : bool :=
  match evs with
  | ev :: _ => is_print ev
  | [] => false
  end.

(** The calls of [evs] by iteration of the classifier loop, in order: an
    iteration opens with the line it prints and lasts until the next line
    is printed. *)
Fixpoint iterations (evs : list Event) : list (list Event) :=
  match evs with
  | [] => []
  | ev :: evs' =>
      match iterations evs' with
      | it :: its =>
          if opens_iteration evs' then [ev] :: it :: its
          else (ev :: it) :: its
      | [] => [[ev]]
      end
  end.

(** The rounds of [evs] that returned, in order.  Such a round is a
    [train_test_split] that returned, then a [fit] that returned, then a
    [predict] that returned; what is read off it is the test size the split
    was given and the error rate of the labels [predict] returned against
    the test labels the split returned. *)
Fixpoint observations (evs : list Event) : list (Q * float) :=
  match evs with
  | EvSplit i _ (Ok sp) :: EvFit _ _ _ (Ok _) :: EvPredict _ _ (Ok y_pred)
    :: evs' =>
      (i, error_rate y_pred (y_test sp)) :: observations evs'
  | _ :: evs' => observations evs'
  | [] => []
  end.

(** [count] consecutive groups of [width] elements of [l], from its
    start. *)
Fixpoint groups {A : Type} (width count : nat) (l : list A)
  : list (list A) :=
  match count with
  | 0%nat => []
  | S count' => firstn width l :: groups width count' (skipn width l)
  end.

(** The arithmetic mean in the specification's words: the sum of the
    observations, taken in order, over their number; undefined (NaN) when
    there is no observation or when one of them is undefined. *)
Fixpoint numbers (es : list float) : option (list Q) :=
  match es with
  | [] => Some []
  | Num q :: es' => option_map (cons q) (numbers es')
  | NaN :: _ => None
  end.

Definition arithmetic_mean (es : list float) : float :=
  match numbers es with
  | Some (q :: qs) =>
      Num (fold_left Qplus (q :: qs) 0
           / inject_Z (Z.of_nat (List.length (q :: qs))))
  | _ => NaN
  end.

(** No call of [evs] raised. *)
Definition quiet (evs : list Event) : Prop :=
  Forall (fun ev => raised ev = None) evs.

(** The calls [evs] of a run that ended with [res]: none raised when the run
    returned; when the run raised [e], the last call raised [e] and no call
    before it raised. *)
Definition stops_at_raise (A : Type) (evs : list Event)
    (res : PyResult Exn A) : Prop :=
  match res with
  | Ok _ => quiet evs
  | Raise e =>
      exists pre ev, evs = pre ++ [ev] /\ quiet pre /\ raised ev = Some e
  end.

(** *** Deterministic classifiers

    [D] is a set of estimator states that [fit] does not leave and on
    which the outcome of [fit] does not depend on the global generator. *)
Definition entropy_free (D : Estimator -> Prop) : Prop :=
  forall c Xtr ytr e1 e2,
    D c ->
    snd (fit c Xtr ytr e1) = snd (fit c Xtr ytr e2) /\
    (forall c', snd (fit c Xtr ytr e1) = Ok c' -> D c').

Definition deterministic (c : Estimator) : Prop :=
  exists D : Estimator -> Prop, D c /\ entropy_free D.

(** Two interpreter states from which the rounds of a classifier of [D] run
    alike: the same generator state in [rng], the same classifier state, of
    [D], in [clf].  The global generator, [data] and the calls made so far
    may differ. *)
Definition alike (D : Estimator -> Prop) (w1 w2 : World) : Prop :=
  rng w1 = rng w2 /\ clf w1 = clf w2 /\ D (clf w1).

Section Sweep.

(** The notebook's module-level names. *)
Variable heldout : list Q.
Variable rounds : Z.
Variable X : list Features.
Variable y : list Label.
Variable seed : Z.

(** [xx = 1. - np.array(heldout)] *)
Definition xx : list Q := map (fun h => 1 - h) heldout.

(** Body of [for r in range(rounds)]. *)
Definition round_body (i : Q) (r : Z) (yy_ : list float)
  : M (list float) :=
  sp <- call_train_test_split X y i ;;
  call_fit (X_train sp) (y_train sp) ;;;
  y_pred <- call_predict (X_test sp) ;;
  ret (yy_ ++ [error_rate y_pred (y_test sp)]).

(** Body of [for i in heldout]. *)
Definition heldout_body (i : Q) (yy : list float) : M (list float) :=
  yy_ <- for_in (range rounds) (round_body i) [] ;;
  ret (yy ++ [mean yy_]).

(** Body of [for name, clf in classifiers]. *)
Definition classifier_body (nc : string * Estimator) (_ : unit)
  : M unit :=
  assign_clf (snd nc) ;;;
  print ("training " ++ fst nc)%string ;;;
  assign_rng seed ;;;
  yy <- for_in heldout heldout_body [] ;;
  data_append (mkScatter xx yy "lines"%string (fst nc)).

Definition layout : Layout := mkLayout "Proportion train"%string "Test Error Rate"%string.

(** Cell In [4]. *)
Definition cell4 (classifiers : list (string * Estimator)) : M Figure :=
  reset_data ;;;
  for_in classifiers classifier_body tt ;;;
  d <- read_data ;;
  ret (mkFigure d layout).

(** *** The four ways one round ends

    [round_runs i w evs w' res]: one round at test size [i] started in
    [w] makes the calls [evs], ends in [w'] and either records the
    error rate [res] or raises at the split, at [fit] or at
    [predict]. *)
Inductive round_runs (i : Q) (w : World)
  : list Event -> World -> PyResult Exn float -> Prop :=
| round_split_raises : forall g' e,
    train_test_split X y i (rng w) = (g', Raise e) ->
    let evs := [EvSplit i (rng w) (Raise e)] in
    round_runs i w evs
      (mkWorld (np_random w) g' (clf w) (data w) (calls w ++ evs))
      (Raise e)
| round_fit_raises : forall g' sp ent' e,
    train_test_split X y i (rng w) = (g', Ok sp) ->
    fit (clf w) (X_train sp) (y_train sp) (np_random w)
      = (ent', Raise e) ->
    let evs := [EvSplit i (rng w) (Ok sp);
                EvFit (clf w) (X_train sp) (y_train sp) (Raise e)] in
    round_runs i w evs
      (mkWorld ent' g' (clf w) (data w) (calls w ++ evs))
      (Raise e)
| round_predict_raises : forall g' sp ent' c' e,
    train_test_split X y i (rng w) = (g', Ok sp) ->
    fit (clf w) (X_train sp) (y_train sp) (np_random w)
      = (ent', Ok c') ->
    predict c' (X_test sp) = Raise e ->
    let evs := [EvSplit i (rng w) (Ok sp);
                EvFit (clf w) (X_train sp) (y_train sp) (Ok c');
                EvPredict c' (X_test sp) (Raise e)] in
    round_runs i w evs
      (mkWorld ent' g' c' (data w) (calls w ++ evs))
      (Raise e)
| round_returns : forall g' sp ent' c' y_pred,
    train_test_split X y i (rng w) = (g', Ok sp) ->
    fit (clf w) (X_train sp) (y_train sp) (np_random w)
      = (ent', Ok c') ->
    predict c' (X_test sp) = Ok y_pred ->
    let evs := [EvSplit i (rng w) (Ok sp);
                EvFit (clf w) (X_train sp) (y_train sp) (Ok c');
                EvPredict c' (X_test sp) (Ok y_pred)] in
    round_runs i w evs
      (mkWorld ent' g' c' (data w) (calls w ++ evs))
      (Ok (error_rate y_pred (y_test sp))).

(** *** The loops, one iteration after the other

    A loop that appends to a list returns what it appended, or the
    exception that stopped it. *)
Definition extend (acc : list float) (res : PyResult Exn (list float))
  : PyResult Exn (list float) :=
  match res with
  | Ok es => Ok (acc ++ es)
  | Raise e => Raise e
  end.

(** [rounds_run i rs w evs w' res]: the rounds of indices [rs] at test size
    [i], started in [w], make the calls [evs] and end in [w']; [res] lists
    the error rate of each round, or is the exception of the round that
    raised, after which no round runs. *)
Inductive rounds_run (i : Q)
  : list Z -> World -> list Event -> World -> PyResult Exn (list float)
    -> Prop :=
| rounds_done : forall w, rounds_run i [] w [] w (Ok [])
| rounds_stop : forall r rs w evs w1 e,
    round_runs i w evs w1 (Raise e) ->
    rounds_run i (r :: rs) w evs w1 (Raise e)
| rounds_next : forall r rs w evs w1 a evs' w2 res,
    round_runs i w evs w1 (Ok a) ->
    rounds_run i rs w1 evs' w2 res ->
    rounds_run i (r :: rs) w (evs ++ evs') w2 (extend [a] res).

(** [curve_run hs w evs w' res]: the proportions [hs] in order, each with
    its [range rounds] rounds; the value kept for a proportion is the mean
    of the error rates of its rounds. *)
Inductive curve_run
  : list Q -> World -> list Event -> World -> PyResult Exn (list float)
    -> Prop :=
| curve_done : forall w, curve_run [] w [] w (Ok [])
| curve_stop : forall i hs w evs w1 e,
    rounds_run i (range rounds) w evs w1 (Raise e) ->
    curve_run (i :: hs) w evs w1 (Raise e)
| curve_next : forall i hs w evs w1 es evs' w2 res,
    rounds_run i (range rounds) w evs w1 (Ok es) ->
    curve_run hs w1 evs' w2 res ->
    curve_run (i :: hs) w (evs ++ evs') w2 (extend [mean es] res).

(** The two calls that open a classifier's iteration, and the state in
    which its proportions start: a generator fresh from [seed] in [rng],
    the classifier object in [clf]. *)
Definition prelude (nc : string * Estimator) : list Event :=
  [EvPrint ("training " ++ fst nc)%string; EvRandomState seed].

Definition classifier_start (nc : string * Estimator) (w : World) : World :=
  mkWorld (np_random w) (RandomState_new seed) (snd nc) (data w)
          (calls w ++ prelude nc).

(** The trace a classifier's iteration appends to [data]. *)
Definition trace_of (nc : string * Estimator) (yy : list float) : Scatter :=
  mkScatter xx yy "lines"%string (fst nc).

Definition with_trace (tr : Scatter) (w : World) : World :=
  mkWorld (np_random w) (rng w) (clf w) (data w ++ [tr]) (calls w).

(** [sweep_run cs w evs w' res]: the classifiers [cs] in order; a
    classifier whose proportions raise stops the loop. *)
Inductive sweep_run
  : list (string * Estimator) -> World -> list Event -> World
    -> PyResult Exn unit -> Prop :=
| sweep_done : forall w, sweep_run [] w [] w (Ok tt)
| sweep_stop : forall nc cs w evs w1 e,
    curve_run heldout (classifier_start nc w) evs w1 (Raise e) ->
    sweep_run (nc :: cs) w (prelude nc ++ evs) w1 (Raise e)
| sweep_next : forall nc cs w evs w1 yy evs' w2 res,
    curve_run heldout (classifier_start nc w) evs w1 (Ok yy) ->
    sweep_run cs (with_trace (trace_of nc yy) w1) evs' w2 res ->
    sweep_run (nc :: cs) w (prelude nc ++ evs ++ evs') w2 res.

(** *** The sequence of splits of one classifier

    [schedule] lists the test sizes of the rounds of one classifier in
    the order the loops run them; [draws g sizes] are the calls to
    [train_test_split] that start from the generator state [g] and
    thread it through, one call per test size. *)
Definition schedule : list Q :=
  flat_map (fun i => map (fun _ : Z => i) (range rounds)) heldout.

Fixpoint draws (g : RandomState) (sizes : list Q) : list Event :=
  match sizes with
  | [] => []
  | i :: sizes' =>
      EvSplit i g (snd (train_test_split X y i g))
      :: draws (fst (train_test_split X y i g)) sizes'
  end.

(** The generator state after the draws of [sizes]. *)
Fixpoint advance (g : RandomState) (sizes : list Q) : RandomState :=
  match sizes with
  | [] => g
  | i :: sizes' => advance (fst (train_test_split X y i g)) sizes'
  end.

End Sweep.

End Notebook.

(** The values cell In [3] gives the module-level names. *)
Definition heldout_nb : list Q := [95 # 100; 90 # 100; 75 # 100; 50 # 100; 1 # 100].
Definition rounds_nb : Z := 20.
Definition seed_nb : Z := 42.

(** ** A small library instance

    Labels are booleans and a feature vector is a number.  A generator
    state is a counter; a split rotates the dataset by the counter, takes
    the first [ceil (test_size * n)] rows as the test set (the size
    scikit-learn computes) and advances the counter.  The estimators are a
    majority rule, one whose [fit] raises once it has been fitted a given
    number of times, one whose [predict] raises, and one that draws from
    the global generator. *)
Module Toy.

Inductive estimator : Type :=
| Majority (guess : bool)
| Fragile (fits_left : nat)
| BrokenPredict
| Coin (guess : bool).

Definition rotate {A : Type} (k : nat) (l : list A) : list A :=
  skipn (k mod List.length l) l ++ firstn (k mod List.length l) l.

Definition n_test (test_size : Q) (n : nat) : nat :=
  Z.to_nat (Qceiling (test_size * inject_Z (Z.of_nat n))).

Definition split (X : list Z) (y : list bool) (test_size : Q) (g : Z)
  : Z * PyResult string (Split Z bool) :=
  if Qle_bool 1 test_size
  then (g, Raise "test_size should be smaller than 1.0"%string)
  else
    let k := Z.to_nat g in
    let nt := n_test test_size (List.length y) in
    (g + 1,
     Ok (mkSplit (skipn nt (rotate k X)) (firstn nt (rotate k X))
                 (skipn nt (rotate k y)) (firstn nt (rotate k y))))%Z.

Definition majority (y : list bool) (default : bool) : bool :=
  match y with
  | [] => default
  | _ :: _ =>
      Nat.leb (count_occ bool_dec y false) (count_occ bool_dec y true)
  end.

Definition toy_fit (c : estimator) (X : list Z) (y : list bool) (ent : nat)
  : nat * PyResult string estimator :=
  match c with
  | Majority g => (ent, Ok (Majority (majority y g)))
  | Fragile 0 => (ent, Raise "fit failed"%string)
  | Fragile (S n) => (ent, Ok (Fragile n))
  | BrokenPredict => (ent, Ok BrokenPredict)
  | Coin _ => (S ent, Ok (Coin (Nat.even ent)))
  end.

Definition toy_predict (c : estimator) (X : list Z)
  : PyResult string (list bool) :=
  match c with
  | Majority g | Coin g => Ok (map (fun _ => g) X)
  | Fragile _ => Ok (map (fun _ => false) X)
  | BrokenPredict => Raise "predict failed"%string
  end.

Definition lib : Sklearn :=
  {| Features := Z;
     Label := bool;
     label_eqb := Bool.eqb;
     Exn := string;
     RandomState := Z;
     RandomState_new := fun seed => seed;
     Entropy := nat;
     Estimator := estimator;
     train_test_split := split;
     fit := toy_fit;
     predict := toy_predict |}.

(** Ten samples, five of each class. *)
Definition X10 : list Z := [0; 1; 2; 3; 4; 5; 6; 7; 8; 9]%Z.
Definition y10 : list bool :=
  [true; false; true; false; true; false; true; false; true; false].

(** The interpreter state before the cell runs. *)
Definition w0 : @World lib := @mkWorld lib 0%nat 0%Z (Majority false) [] [].

(** Two proportions, two rounds each, a deterministic classifier and one
    that draws from the global generator. *)
Definition cs2 : list (string * estimator) :=
  [("majority"%string, Majority false); ("coin"%string, Coin false)].

Definition out2 := @cell4 lib [1 # 2; 1 # 4] 2 X10 y10 seed_nb cs2 w0.

Definition w2 : @World lib := Eval vm_compute in fst out2.

Definition fig2 : Figure :=
  Eval vm_compute in
    match snd out2 with
    | Ok f => f
    | Raise _ => mkFigure [] layout
    end.

(** No round at all: [rounds = 0]. *)
Definition cs1 : list (string * estimator) :=
  [("majority"%string, Majority false)].

Definition out_no_round := @cell4 lib [1 # 2] 0 X10 y10 seed_nb cs1 w0.

Definition w_no_round : @World lib := Eval vm_compute in fst out_no_round.

Definition fig_no_round : Figure :=
  Eval vm_compute in
    match snd out_no_round with
    | Ok f => f
    | Raise _ => mkFigure [] layout
    end.

(** A classifier whose [fit] raises at the second round of the second
    proportion. *)
Definition out_b :=
  @cell4 lib [1 # 2; 1 # 4] 2 X10 y10 seed_nb [("b"%string, Fragile 3)] w0.

Definition w_b : @World lib := Eval vm_compute in fst out_b.

Definition calls_before_b : list (@Event lib) :=
  Eval vm_compute in removelast (calls w_b).

Definition last_call_b : @Event lib :=
  Eval vm_compute in last (calls w_b) (EvPrint ""%string).

(** The majority rule, which completes, before the classifier named b. *)
Definition out_mb :=
  @cell4 lib [1 # 2; 1 # 4] 2 X10 y10 seed_nb
    [("majority"%string, Majority false); ("b"%string, Fragile 3)] w0.

Definition w_mb : @World lib := Eval vm_compute in fst out_mb.

(** Labels that are not evenly spread, so that the rounds of a proportion
    observe different error rates. *)
Definition y_uneven : list bool :=
  [true; true; true; false; true; false; false; true; true; false].

Definition out_uneven :=
  @cell4 lib [1 # 2; 1 # 5] 2 X10 y_uneven seed_nb cs2 w0.

Definition w_uneven : @World lib := Eval vm_compute in fst out_uneven.

Definition fig_uneven : Figure :=
  Eval vm_compute in
    match snd out_uneven with
    | Ok f => f
    | Raise _ => mkFigure [] layout
    end.

(** One round per proportion. *)
Definition out_single := @cell4 lib [1 # 2; 1 # 4] 1 X10 y10 seed_nb cs2 w0.

Definition w_single : @World lib := Eval vm_compute in fst out_single.

Definition fig_single : Figure :=
  Eval vm_compute in
    match snd out_single with
    | Ok f => f
    | Raise _ => mkFigure [] layout
    end.

(** Another interpreter state: the global generator has been used, and
    the variables hold leftovers of an earlier run. *)
Definition w0' : @World lib :=
  @mkWorld lib 7%nat 1000%Z (Coin true)
    [mkScatter [] [NaN] "lines"%string "stale"%string]
    [@EvPrint lib "hello"%string].

(** One round, and the rounds of one proportion, started with a fresh
    generator in [rng] and a majority rule in [clf]. *)
Definition w_start : @World lib :=
  @mkWorld lib 0%nat 42%Z (Majority false) [] [].

Definition round_out := @round_body lib X10 y10 (1 # 2) 0 [] w_start.

Definition w_round : @World lib := Eval vm_compute in fst round_out.

Definition sp_round : Split Z bool :=
  Eval vm_compute in
    match snd (split X10 y10 (1 # 2) 42) with
    | Ok sp => sp
    | Raise _ => mkSplit [] [] [] []
    end.

(** The iteration of one classifier. *)
Definition body_out :=
  @classifier_body lib [1 # 2; 1 # 4] 2 X10 y10 seed_nb
    ("majority"%string, Majority false) tt w0.

Definition w_body : @World lib := Eval vm_compute in fst body_out.

(** An empty proportion list, and a negative number of rounds. *)
Definition out_no_proportion := @cell4 lib [] 20 X10 y10 seed_nb cs1 w0.

Definition fig_no_proportion : Figure :=
  Eval vm_compute in
    match snd out_no_proportion with
    | Ok f => f
    | Raise _ => mkFigure [] layout
    end.

Definition out_negative := @cell4 lib [1 # 2] (-1) X10 y10 seed_nb cs1 w0.

Definition fig_negative : Figure :=
  Eval vm_compute in
    match snd out_negative with
    | Ok f => f
    | Raise _ => mkFigure [] layout
    end.

(** Degenerate splits: test size 0.999 on the ten samples leaves no
    training sample; test size 0 leaves no test sample. *)
Definition out_no_train := @cell4 lib [999 # 1000] 1 X10 y10 seed_nb cs1 w0.

Definition w_no_train : @World lib := Eval vm_compute in fst out_no_train.

Definition fig_no_train : Figure :=
  Eval vm_compute in
    match snd out_no_train with
    | Ok f => f
    | Raise _ => mkFigure [] layout
    end.

Definition out_no_test := @cell4 lib [0] 1 X10 y10 seed_nb cs1 w0.

Definition w_no_test : @World lib := Eval vm_compute in fst out_no_test.

Definition fig_no_test : Figure :=
  Eval vm_compute in
    match snd out_no_test with
    | Ok f => f
    | Raise _ => mkFigure [] layout
    end.

Definition body_no_test := @heldout_body lib 1 X10 y10 0 [] w_start.

Definition w_body_no_test : @World lib :=
  Eval vm_compute in fst body_no_test.

Definition sp_no_test : Split Z bool :=
  Eval vm_compute in
    match snd (split X10 y10 0 42) with
    | Ok sp => sp
    | Raise _ => mkSplit [] [] [] []
    end.

(** The majority rule after the classifier that draws from the global
    generator. *)
Definition out_cm :=
  @cell4 lib [1 # 2; 1 # 4] 2 X10 y10 seed_nb
    ([("coin"%string, Coin false)] ++ ("majority"%string, Majority false) :: [])
    w0'.

Definition w_cm : @World lib := Eval vm_compute in fst out_cm.

Definition fig_cm : Figure :=
  Eval vm_compute in
    match snd out_cm with
    | Ok f => f
    | Raise _ => mkFigure [] layout
    end.

Definition trace_majority : Scatter :=
  Eval vm_compute in nth 1 (data w_cm) (mkScatter [] [] ""%string ""%string).

End Toy.


(** * Probability calibration of classifiers

    The glue of the notebook
    [_posts/scikit/probability-calibration/probability-calibration.ipynb]:
    the relabelling of the blobs in the cell "Calculations" and the two
    cells under "Plots".  The estimators, [make_blobs], [train_test_split],
    [brier_score_loss], [np.lexsort], the colour map and the formatting of
    a float are the libraries'; the plots take their results as they
    come. *)
Module Calibration.

(** The two built-in exceptions the glue can raise by itself. *)
Inductive PyError : Type := IndexError | ValueError.

(** ** NumPy arrays as lists *)

(** [a[:k] = v] *)
Definition assign_upto {A : Type} (k : nat) (v : A) (a : list A) : list A :=
  repeat v (Nat.min k (List.length a)) ++ skipn k a.

(** [a[k:] = v] *)
Definition assign_from {A : Type} (k : nat) (v : A) (a : list A) : list A :=
  firstn k a ++ repeat v (List.length a - k).

(** [np.unique(a)]: the distinct values of [a] in increasing order. *)
Fixpoint insert_unique (z : Z) (l : list Z) : list Z :=
  match l with
  | [] => [z]
  | x :: l' =>
      if (z <? x)%Z then z :: l
      else if (z =? x)%Z then l
      else x :: insert_unique z l'
  end.

Definition unique (a : list Z) : list Z := fold_right insert_unique [] a.

(** [np.linspace(start, stop, num)] *)
Definition linspace (start stop : Q) (num : nat) : list Q :=
  match num with
  | 0%nat => []
  | 1%nat => [start]
  | _ =>
      map (fun i => start
                    + inject_Z (Z.of_nat i)
                      * ((stop - start) / inject_Z (Z.of_nat (num - 1))))
          (seq 0 num)
  end.

(** [a[mask]] for a boolean array [mask]: the rows where the mask holds;
    an [IndexError] when the mask has not the length of [a]. *)
Fixpoint mask_filter {A : Type} (a : list A) (mask : list bool) : list A :=
  match a, mask with
  | x :: a', b :: mask' =>
      if b then x :: mask_filter a' mask' else mask_filter a' mask'
  | _, _ => []
  end.

Definition select {A : Type} (a : list A) (mask : list bool)
  : PyResult PyError (list A) :=
  if (List.length a =? List.length mask)%nat
  then Ok (mask_filter a mask)
  else Raise IndexError.

(** [a[order]] for an array [order] of indices: an [IndexError] at the
    first index that is out of bounds. *)
Fixpoint take {A : Type} (a : list A) (order : list nat)
  : PyResult PyError (list A) :=
  match order with
  | [] => Ok []
  | i :: order' =>
      match nth_error a i with
      | None => Raise IndexError
      | Some x =>
          match take a order' with
          | Ok l => Ok (x :: l)
          | Raise e => Raise e
          end
      end
  end.

(** [a[1::2]] *)
Fixpoint odd_items {A : Type} (a : list A) : list A :=
  match a with
  | _ :: x :: a' => x :: odd_items a'
  | _ => []
  end.

(** [a.reshape(rows, -1)] of a one-dimensional array: [rows] rows of equal
    width, a [ValueError] when the size is no multiple of [rows]. *)
Fixpoint chunks {A : Type} (width count : nat) (a : list A)
  : list (list A) :=
  match count with
  | 0%nat => []
  | S count' => firstn width a :: chunks width count' (skipn width a)
  end.

Definition reshape_rows {A : Type} (rows : nat) (a : list A)
  : PyResult PyError (list (list A)) :=
  if (rows =? 0)%nat || negb (List.length a mod rows =? 0)%nat
  then Raise ValueError
  else Ok (chunks (List.length a / rows) rows a).

(** An integer array read as floats, and [.mean(1)] of a two-dimensional
    integer array. *)
Definition as_float (a : list Z) : list float :=
  map (fun z => Num (inject_Z z)) a.

Definition row_means (rows : list (list Z)) : list float :=
  map (fun row => mean (as_float row)) rows.

(** ["%s" % z] for an integer. *)
Definition str (z : Z) : string := NilZero.string_of_int (Z.to_int z).

(** ** Cell "Calculations": the labels

    [y[:n_samples // 2] = 0] and [y[n_samples // 2:] = 1] *)
Definition relabel (n_samples : nat) (y : list Z) : list Z :=
  assign_from (n_samples / 2) 1%Z (assign_upto (n_samples / 2) 0%Z y).

(** ** Cell "Plots", first part: the training data by class *)

Record Marker : Type := mkMarker
  { marker_color : string;
    marker_size : Z;
    marker_line_color : string;
    marker_line_width : Z }.

Record ClassTrace : Type := mkClassTrace
  { ct_x : list Q;
    ct_y : list Q;
    ct_mode : string;
    ct_marker : Marker;
    ct_name : string }.

Definition marker_colors : list string :=
  ["rgba(128,0,128,0.5)"%string; "rgba(255,0,0,0.5)"%string].

Section ClassPlot.

(** [cm.rainbow], applied to each element of its argument. *)
Variable Color : Type.
Variable rainbow : Q -> Color.

(** The training part of the split: rows of two features, labels and
    sample weights. *)
Variable X_train : list (Q * Q).
Variable y_train : list Z.
Variable sw_train : list Q.

(** [for this_y, color in zip(y_unique, colors)] with its two variables
    [data_plot] and [i]; what the loop has built stays when it raises. *)
Fixpoint class_loop (pairs : list (Z * Color)) (data_plot : list ClassTrace)
    (i : nat) : list ClassTrace * nat * PyResult PyError unit :=
  match pairs with
  | [] => (data_plot, i, Ok tt)
  | (this_y, color) :: pairs' =>
      let mask := map (fun l => (l =? this_y)%Z) y_train in
      match select X_train mask with
      | Raise e => (data_plot, i, Raise e)
      | Ok this_X =>
          match select sw_train mask with
          | Raise e => (data_plot, i, Raise e)
          | Ok this_sw =>
              match nth_error marker_colors i with
              | None => (data_plot, i, Raise IndexError)
              | Some c =>
                  let trace :=
                    mkClassTrace (map fst this_X) (map snd this_X)
                      "markers"%string
                      (mkMarker c 12 "black"%string 1)
                      ("Class " ++ str this_y)%string in
                  class_loop pairs' (data_plot ++ [trace]) (i + 1)
              end
          end
      end
  end.

(** The trace of one class, and the traces the loop builds for the labels
    [labels] when it starts with [i]: one per label as long as
    [marker_colors] has an entry. *)
Definition class_trace (c : string) (this_y : Z) : ClassTrace :=
  let this_X :=
    mask_filter X_train (map (fun l => (l =? this_y)%Z) y_train) in
  mkClassTrace (map fst this_X) (map snd this_X) "markers"%string
    (mkMarker c 12 "black"%string 1) ("Class " ++ str this_y)%string.

Fixpoint traces_from (i : nat) (labels : list Z) : list ClassTrace :=
  match labels with
  | [] => []
  | l :: labels' =>
      match nth_error marker_colors i with
      | Some c => class_trace c l :: traces_from (i + 1) labels'
      | None => []
      end
  end.

(** The cell up to the figure: [y_unique], [colors] and the loop. *)
Definition class_plot (y : list Z)
  : list ClassTrace * nat * PyResult PyError unit :=
  let y_unique := unique y in
  let colors := map rainbow (linspace 0 1 (List.length y_unique)) in
  class_loop (combine y_unique colors) [] 0.

End ClassPlot.

(** ** Cell "Plots", second part: the calibration curves *)

Record LineTrace : Type := mkLineTrace
  { lt_x : option (list Q);
    lt_y : list float;
    lt_name : string;
    lt_mode : string;
    lt_line_color : string;
    lt_line_width : option Z }.

Section CalibrationPlot.

(** ["%1.3f" % score] and [np.lexsort((keys, ))]. *)
Variable format_1_3f : Q -> string.
Variable lexsort : list Q -> list nat.

Variable prob_pos_clf prob_pos_isotonic prob_pos_sigmoid : list Q.
Variable y_test : list Z.
Variable clf_score clf_isotonic_score clf_sigmoid_score : Q.

Definition order : list nat := lexsort prob_pos_clf.

(** [np.linspace(0, y_test.size, 51)[1::2]] *)
Definition empirical_x : list Q :=
  odd_items (linspace 0 (inject_Z (Z.of_nat (List.length y_test))) 51).

(** [y_test[order].reshape(25, -1).mean(1)] *)
Definition empirical_y : PyResult PyError (list float) :=
  match take y_test order with
  | Raise e => Raise e
  | Ok sorted =>
      match reshape_rows 25 sorted with
      | Raise e => Raise e
      | Ok rows => Ok (row_means rows)
      end
  end.

(** The four traces, in the order the cell builds them. *)
Definition calibration_plot : PyResult PyError (list LineTrace) :=
  match take prob_pos_clf order with
  | Raise e => Raise e
  | Ok p_clf =>
      match take prob_pos_isotonic order with
      | Raise e => Raise e
      | Ok p_isotonic =>
          match take prob_pos_sigmoid order with
          | Raise e => Raise e
          | Ok p_sigmoid =>
              match empirical_y with
              | Raise e => Raise e
              | Ok means =>
                  Ok [mkLineTrace None (map Num p_clf)
                        ("No calibration (" ++ format_1_3f clf_score ++ ")")
                        "lines" "red" None;
                      mkLineTrace None (map Num p_isotonic)
                        ("Isotonic calibration ("
                         ++ format_1_3f clf_isotonic_score ++ ")")
                        "lines" "green" (Some 3%Z);
                      mkLineTrace None (map Num p_sigmoid)
                        ("Sigmoid calibration ("
                         ++ format_1_3f clf_sigmoid_score ++ ")")
                        "lines" "blue" (Some 3%Z);
                      mkLineTrace (Some empirical_x) means "Empirical"
                        "lines" "black" (Some 3%Z)]%string
              end
          end
      end
  end.

End CalibrationPlot.

(** ** Small inputs *)

(** Three classes of labels, and two. *)
Definition y_three : list Z := [2; 0; 1; 0; 2; 1]%Z.
Definition y_two : list Z := [1; 0; 1; 0; 1; 1]%Z.

Definition X_six : list (Q * Q) :=
  [(1, 1); (2, 2); (3, 3); (4, 4); (5, 5); (6, 6)].

Definition sw_six : list Q := [1; 1; 1; 1; 1; 1].

(** Fifty test labels, every third one positive, with an order that
    reverses them. *)
Definition y_fifty : list Z :=
  map (fun i => if (i mod 3 =? 0)%nat then 1%Z else 0%Z) (seq 0 50).

Definition reverse_order (keys : list Q) : list nat :=
  rev (seq 0 (List.length keys)).

Definition p_fifty : list Q :=
  map (fun i => inject_Z (Z.of_nat i) / 50) (seq 0 50).

(** The empirical values and the four traces on these inputs, with scores
    that are all printed alike. *)
Definition fixed_format (score : Q) : string := "0.118"%string.

Definition means_fifty : list float :=
  Eval vm_compute in
    match empirical_y reverse_order p_fifty y_fifty with
    | Ok means => means
    | Raise _ => []
    end.

Definition traces_fifty : list LineTrace :=
  Eval vm_compute in
    match calibration_plot fixed_format reverse_order p_fifty p_fifty p_fifty
            y_fifty 0 0 0 with
    | Ok traces => traces
    | Raise _ => []
    end.

End Calibration.


(** * Properties of the sweep *)

Section Properties.

Context {lib : Sklearn}.

(** ** Lists *)

Lemma range_length n : List.length (range n) = Z.to_nat n.
Proof. unfold range. rewrite length_map, length_seq. reflexivity. Qed.

(** ** NumPy reductions *)

Lemma fold_add_NaN es : fold_left add es NaN = NaN.
Proof. induction es as [| e es IH]; simpl; [reflexivity | exact IH]. Qed.

Lemma sum_with_NaN es : In NaN es -> forall a, fold_left add es a = NaN.
Proof.
  induction es as [| e es IH]; intros Hin a; [destruct Hin |].
  destruct Hin as [-> | Hin]; simpl.
  - destruct a; simpl; apply fold_add_NaN.
  - apply IH, Hin.
Qed.

Lemma mean_with_NaN es : In NaN es -> mean es = NaN.
Proof.
  intros Hin. unfold mean, sum. rewrite (sum_with_NaN _ Hin).
  destruct es; reflexivity.
Qed.

Lemma size_cons e es : size (e :: es) == size es + 1.
Proof.
  unfold size. cbn [List.length]. rewrite Nat2Z.inj_succ, <- Z.add_1_r.
  rewrite inject_Z_plus. reflexivity.
Qed.

Lemma size_nonneg es : 0 <= size es.
Proof.
  unfold size. change 0 with (inject_Z 0). rewrite <- Zle_Qle. lia.
Qed.

Lemma sum_in_unit es : forall q,
  Forall in_unit es ->
  exists s, fold_left add es (Num q) = Num s /\ q <= s /\ s <= q + size es.
Proof.
  induction es as [| e es IH]; intros q Hall.
  - exists q. split; [reflexivity |]. change (size []) with 0. lra.
  - inversion Hall as [| e' es' He Hes]; subst.
    destruct e as [x |]; [| destruct He]. simpl in He.
    destruct (IH (q + x) Hes) as (s & Hs & Hlo & Hhi).
    exists s. simpl. split; [exact Hs |].
    pose proof (size_cons (Num x) es) as Hsz. lra.
Qed.

Lemma mean_in_unit es : es <> [] -> Forall in_unit es -> in_unit (mean es).
Proof.
  intros Hne Hall. destruct es as [| e es]; [congruence |].
  unfold mean, sum.
  destruct (sum_in_unit 0 Hall) as (s & -> & Hlo & Hhi). simpl.
  pose proof (size_cons e es) as Hsz. pose proof (size_nonneg es) as Hnn.
  assert (Hpos : 0 < size (e :: es)) by lra.
  split.
  - apply Qle_shift_div_l; [exact Hpos | lra].
  - apply Qle_shift_div_r; [exact Hpos | lra].
Qed.

Lemma NaN_or_all_unit es :
  Forall (fun e => e = NaN \/ in_unit e) es -> In NaN es \/ Forall in_unit es.
Proof.
  induction 1 as [| e es [-> | He] _ [IH | IH]]; simpl; auto.
Qed.

Lemma mean_NaN_or_unit es :
  Forall (fun e => e = NaN \/ in_unit e) es ->
  mean es = NaN \/ in_unit (mean es).
Proof.
  intros H. destruct (NaN_or_all_unit H) as [Hin | Hall].
  - left. apply mean_with_NaN, Hin.
  - destruct es as [| e es]; [left; reflexivity |].
    right. apply mean_in_unit; [discriminate | exact Hall].
Qed.

Lemma of_bool_in_unit bs : Forall in_unit (map of_bool bs).
Proof.
  induction bs as [| [|] bs IH]; constructor; simpl; try assumption; lra.
Qed.

Lemma one_minus_in_unit a : in_unit a -> in_unit (sub (Num 1) a).
Proof. destruct a as [x |]; simpl; [lra | tauto]. Qed.

Lemma equal_nil (L : Type) (eqb : L -> L -> bool) a b :
  equal eqb a b = [] <-> a = [] \/ b = [].
Proof.
  destruct a, b; simpl; split; auto; try discriminate.
  intros [H | H]; discriminate.
Qed.

Lemma error_rate_NaN_or_unit yp yt :
  error_rate yp yt = NaN \/ in_unit (error_rate yp yt).
Proof.
  unfold error_rate.
  destruct (equal label_eqb yp yt) as [| b bs] eqn:He; [left; reflexivity |].
  right. apply one_minus_in_unit, mean_in_unit; [discriminate |].
  apply of_bool_in_unit.
Qed.

Lemma error_rate_in_unit yp yt :
  yp <> [] -> yt <> [] -> in_unit (error_rate yp yt).
Proof.
  intros Hp Ht. unfold error_rate.
  apply one_minus_in_unit, mean_in_unit; [| apply of_bool_in_unit].
  intros Hm. apply map_eq_nil in Hm. apply equal_nil in Hm. tauto.
Qed.

Lemma error_rate_no_test_label yp : error_rate yp [] = NaN.
Proof. unfold error_rate. destruct yp; reflexivity. Qed.

Section Sweep.

Variable heldout : list Q.
Variable rounds : Z.
Variable X : list Features.
Variable y : list Label.
Variable seed : Z.

(** ** One round *)

(** A round ends in exactly one of the four ways, whatever its index
    and the list it appends to. *)
Lemma round_body_runs i w :
  exists evs w' res,
    round_runs X y i w evs w' res /\
    forall r yy_,
      round_body X y i r yy_ w
      = (w', match res with
             | Ok e => Ok (yy_ ++ [e])
             | Raise e => Raise e
             end).
Proof.
  unfold round_body, bind, call_train_test_split, call_fit,
    call_predict, ret, emit.
  destruct (train_test_split X y i (rng w)) as [g' [sp | e]] eqn:Hs;
    cbn [rng clf np_random data calls].
  2:{ eexists _, _, (Raise e). split; [eapply round_split_raises; eauto|].
      reflexivity. }
  destruct (fit (clf w) (X_train sp) (y_train sp) (np_random w))
    as [ent' [c' | e]] eqn:Hf; cbn [rng clf np_random data calls].
  2:{ eexists _, _, (Raise e). split; [eapply round_fit_raises; eauto|].
      cbn. rewrite <- app_assoc. reflexivity. }
  destruct (predict c' (X_test sp)) as [yp | e] eqn:Hp.
  - eexists _, _, (Ok _). split; [eapply round_returns; eauto|].
    cbn. rewrite <- !app_assoc. reflexivity.
  - eexists _, _, (Raise e). split; [eapply round_predict_raises; eauto|].
    cbn. rewrite <- !app_assoc. reflexivity.
Qed.

(** The calls of a round are appended to the list of calls; the round
    leaves [data] alone, draws exactly one split from [rng], and never
    builds a new generator. *)
Lemma round_runs_frame i w evs w' res :
  round_runs X y i w evs w' res ->
  calls w' = calls w ++ evs /\ data w' = data w /\
  rng w' = fst (train_test_split X y i (rng w)) /\
  splits evs = [EvSplit i (rng w) (snd (train_test_split X y i (rng w)))] /\
  Forall (fun ev => is_reseed ev = false) evs /\
  Forall (fun ev => is_library_call ev = true) evs.
Proof.
  intros H; destruct H as [g' e Hs | g' sp ent' e Hs Hf
                          | g' sp ent' c' e Hs Hf Hp
                          | g' sp ent' c' yp Hs Hf Hp];
    subst evs; cbn [calls data rng]; rewrite Hs; cbn;
    repeat split; auto.
Qed.

(** ** The loops run as [rounds_run], [curve_run] and [sweep_run] say *)

Lemma rounds_loop_runs i rs : forall w,
  exists evs w' res,
    rounds_run X y i rs w evs w' res /\
    forall acc, for_in rs (round_body X y i) acc w = (w', extend acc res).
Proof.
  induction rs as [| r rs IH]; intros w.
  - exists [], w, (Ok []). split; [constructor |]. intros acc. simpl.
    rewrite app_nil_r. reflexivity.
  - destruct (round_body_runs i w) as (evs & w1 & [a | e] & Hrun & Hbody).
    + destruct (IH w1) as (evs' & w2 & res & Hrest & Hloop).
      exists (evs ++ evs'), w2, (extend [a] res).
      split; [econstructor; eassumption |].
      intros acc. simpl. unfold bind. rewrite Hbody, Hloop.
      destruct res; simpl; [rewrite <- app_assoc |]; reflexivity.
    + exists evs, w1, (Raise e). split; [econstructor; eassumption |].
      intros acc. simpl. unfold bind. rewrite Hbody. reflexivity.
Qed.

Lemma heldout_loop_runs hs : forall w,
  exists evs w' res,
    curve_run rounds X y hs w evs w' res /\
    forall acc,
      for_in hs (heldout_body rounds X y) acc w = (w', extend acc res).
Proof.
  induction hs as [| i hs IH]; intros w.
  - exists [], w, (Ok []). split; [constructor |]. intros acc. simpl.
    rewrite app_nil_r. reflexivity.
  - destruct (rounds_loop_runs i (range rounds) w)
      as (evs & w1 & [es | e] & Hrun & Hbody).
    + destruct (IH w1) as (evs' & w2 & res & Hrest & Hloop).
      exists (evs ++ evs'), w2, (extend [mean es] res).
      split; [econstructor; eassumption |].
      intros acc. simpl. unfold bind, heldout_body at 1, bind, ret.
      rewrite Hbody. simpl. rewrite Hloop.
      destruct res; simpl; [rewrite <- app_assoc |]; reflexivity.
    + exists evs, w1, (Raise e). split; [econstructor; eassumption |].
      intros acc. simpl. unfold bind, heldout_body at 1, bind, ret.
      rewrite Hbody. reflexivity.
Qed.

Lemma classifier_body_start nc w :
  classifier_body heldout rounds X y seed nc tt w
  = match for_in heldout (heldout_body rounds X y) []
            (classifier_start seed nc w) with
    | (w1, Ok yy) => (with_trace (trace_of heldout nc yy) w1, Ok tt)
    | (w1, Raise e) => (w1, Raise e)
    end.
Proof.
  unfold classifier_body, bind, print, assign_rng, assign_clf, emit,
    data_append, classifier_start, prelude, with_trace, trace_of.
  cbn [np_random rng clf data calls]. rewrite <- app_assoc. reflexivity.
Qed.

Lemma classifiers_loop_runs cs : forall w,
  exists evs w' res,
    sweep_run heldout rounds X y seed cs w evs w' res /\
    for_in cs (classifier_body heldout rounds X y seed) tt w = (w', res).
Proof.
  induction cs as [| nc cs IH]; intros w.
  - exists [], w, (Ok tt). split; [constructor | reflexivity].
  - destruct (heldout_loop_runs heldout (classifier_start seed nc w))
      as (evs & w1 & [yy | e] & Hrun & Hbody).
    + destruct (IH (with_trace (trace_of heldout nc yy) w1))
        as (evs' & w2 & res & Hrest & Hloop).
      exists (prelude seed nc ++ evs ++ evs'), w2, res.
      split; [econstructor; eassumption |].
      simpl. unfold bind. rewrite classifier_body_start, Hbody. simpl.
      exact Hloop.
    + exists (prelude seed nc ++ evs), w1, (Raise e).
      split; [econstructor; eassumption |].
      simpl. unfold bind. rewrite classifier_body_start, Hbody. reflexivity.
Qed.

(** Cell In [4] empties [data], runs the classifiers and, when none raised,
    wraps [data] in a figure. *)
Lemma cell4_runs cs w :
  exists evs w' res,
    sweep_run heldout rounds X y seed cs
      (mkWorld (np_random w) (rng w) (clf w) [] (calls w)) evs w' res /\
    cell4 heldout rounds X y seed cs w
    = (w', match res with
           | Ok _ => Ok (mkFigure (data w') layout)
           | Raise e => Raise e
           end).
Proof.
  destruct (classifiers_loop_runs cs
              (mkWorld (np_random w) (rng w) (clf w) [] (calls w)))
    as (evs & w' & res & Hrun & Hloop).
  exists evs, w', res. split; [exact Hrun |].
  unfold cell4, bind, reset_data, read_data, ret. rewrite Hloop.
  destruct res; reflexivity.
Qed.

(** ** What the loops leave behind *)

Lemma extend_ok acc res es :
  extend acc res = Ok es -> exists es', res = Ok es' /\ es = acc ++ es'.
Proof.
  destruct res as [es' | e]; simpl; intros H; [| discriminate].
  injection H as <-. eauto.
Qed.

Lemma rounds_run_frame i rs w evs w' res :
  rounds_run X y i rs w evs w' res ->
  calls w' = calls w ++ evs /\ data w' = data w.
Proof.
  induction 1 as [w | r rs w evs w1 e Hr
                 | r rs w evs w1 a evs' w2 res Hr Hrest [IHc IHd]].
  - rewrite app_nil_r. auto.
  - apply round_runs_frame in Hr. tauto.
  - apply round_runs_frame in Hr. destruct Hr as (Hc & Hd & _).
    rewrite IHc, IHd, Hc, Hd, app_assoc. auto.
Qed.

Lemma curve_run_frame hs w evs w' res :
  curve_run rounds X y hs w evs w' res ->
  calls w' = calls w ++ evs /\ data w' = data w.
Proof.
  induction 1 as [w | i hs w evs w1 e Hr
                 | i hs w evs w1 es evs' w2 res Hr Hrest [IHc IHd]].
  - rewrite app_nil_r. auto.
  - apply rounds_run_frame in Hr. tauto.
  - apply rounds_run_frame in Hr. destruct Hr as (Hc & Hd).
    rewrite IHc, IHd, Hc, Hd, app_assoc. auto.
Qed.

Lemma sweep_run_frame cs w evs w' res :
  sweep_run heldout rounds X y seed cs w evs w' res ->
  calls w' = calls w ++ evs.
Proof.
  induction 1 as [w | nc cs w evs w1 e Hc
                 | nc cs w evs w1 yy evs' w2 res Hc Hrest IH].
  - rewrite app_nil_r. reflexivity.
  - apply curve_run_frame in Hc. destruct Hc as [Hc _]. rewrite Hc.
    simpl. rewrite <- app_assoc. reflexivity.
  - apply curve_run_frame in Hc. destruct Hc as [Hc _]. rewrite IH.
    simpl. rewrite Hc. simpl. rewrite <- !app_assoc. reflexivity.
Qed.

(** A round that returns records a NaN or a value of the unit interval,
    and a value of the unit interval when it compared a label. *)
Lemma round_runs_value i w evs w' a :
  round_runs X y i w evs w' (Ok a) ->
  (a = NaN \/ in_unit a) /\
  (Forall (fun ev => ~ compares_nothing ev) evs -> in_unit a).
Proof.
  intros H. inversion H as [| | | g' sp ent' c' yp Hs Hf Hp]; subst.
  split; [apply error_rate_NaN_or_unit |].
  intros Hall. inversion Hall as [| ev1 l1 H1 Hall1]; subst.
  inversion Hall1 as [| ev2 l2 _ Hall2]; subst.
  inversion Hall2 as [| ev3 l3 H3 _]; subst.
  simpl in H1, H3. apply error_rate_in_unit; assumption.
Qed.

Lemma rounds_run_values i rs w evs w' es :
  rounds_run X y i rs w evs w' (Ok es) ->
  List.length es = List.length rs /\
  Forall (fun e => e = NaN \/ in_unit e) es /\
  (Forall (fun ev => ~ compares_nothing ev) evs -> Forall in_unit es).
Proof.
  intros H. remember (Ok es) as res eqn:Hres. revert es Hres.
  induction H as [w | r rs w evs w1 e Hr
                 | r rs w evs w1 a evs' w2 res Hr Hrest IH];
    intros es Hres.
  - injection Hres as <-. auto.
  - discriminate.
  - apply extend_ok in Hres.
    destruct Hres as (es' & -> & ->).
    destruct (IH es' eq_refl) as (Hlen & Hall & Hunit).
    apply round_runs_value in Hr. destruct Hr as [Ha Hau].
    simpl. repeat split.
    + congruence.
    + constructor; assumption.
    + intros Hev. apply Forall_app in Hev. destruct Hev as [Hev1 Hev2].
      constructor; auto.
Qed.

(** The proportions of a classifier that returns: one value per proportion,
    in order, each the mean over the [range rounds] rounds of its
    proportion. *)
Lemma curve_run_values hs w evs w' vs :
  curve_run rounds X y hs w evs w' (Ok vs) ->
  Forall2 (fun p v =>
             exists w1 evs1 w2 es,
               rounds_run X y p (range rounds) w1 evs1 w2 (Ok es) /\
               incl evs1 evs /\ v = mean es) hs vs.
Proof.
  intros H. remember (Ok vs) as res eqn:Hres. revert vs Hres.
  induction H as [w | i hs w evs w1 e Hr
                 | i hs w evs w1 es evs' w2 res Hr Hrest IH];
    intros vs Hres.
  - injection Hres as <-. constructor.
  - discriminate.
  - apply extend_ok in Hres.
    destruct Hres as (vs' & -> & ->). simpl. constructor.
    + exists w, evs, w1, es. split; [exact Hr |].
      split; [apply incl_appl, incl_refl | reflexivity].
    + eapply Forall2_impl; [| apply IH; reflexivity].
      intros p v (wa & evsa & wb & esa & Hrun & Hincl & Hv).
      exists wa, evsa, wb, esa. split; [exact Hrun |].
      split; [apply incl_appr, Hincl | exact Hv].
Qed.

(** The traces in [data] after the classifiers ran: one per classifier
    that returned, in order, built from the values of its proportions. *)
Lemma sweep_run_traces cs w evs w' res :
  sweep_run heldout rounds X y seed cs w evs w' res ->
  exists traces,
    data w' = data w ++ traces /\
    Forall2 (fun nc tr =>
               exists w1 evs1 w2 yy,
                 curve_run rounds X y heldout (classifier_start seed nc w1)
                   evs1 w2 (Ok yy) /\
                 incl evs1 evs /\ tr = trace_of heldout nc yy)
            (firstn (List.length traces) cs) traces /\
    (forall u, res = Ok u -> List.length traces = List.length cs).
Proof.
  induction 1 as [w | nc cs w evs w1 e Hc
                 | nc cs w evs w1 yy evs' w2 res Hc Hrest IH].
  - exists []. rewrite app_nil_r. split; [reflexivity |].
    split; [constructor | reflexivity].
  - exists []. rewrite app_nil_r. apply curve_run_frame in Hc.
    destruct Hc as [_ Hd]. split; [exact Hd |].
    split; [constructor | discriminate].
  - destruct IH as (traces & Hd & Hall & Hlen).
    exists (trace_of heldout nc yy :: traces).
    pose proof (curve_run_frame Hc) as [_ Hd1]. split.
    + rewrite Hd. simpl. rewrite Hd1, <- app_assoc. reflexivity.
    + split.
      * cbn [List.length firstn]. constructor.
        -- exists w, evs, w1, yy. split; [exact Hc |].
           split; [| reflexivity].
           apply incl_appr, incl_appl, incl_refl.
        -- eapply Forall2_impl; [| exact Hall].
           intros nc' tr (wa & evsa & wb & yya & Hrun & Hincl & Htr).
           exists wa, evsa, wb, yya. split; [exact Hrun |].
           split; [| exact Htr].
           apply incl_appr, incl_appr, Hincl.
      * intros u Hu. simpl. f_equal. eapply Hlen, Hu.
Qed.

(** ** The error rate of a round, in the specification's words *)

Lemma matching_equal yp yt :
  matching yp yt = count_occ bool_dec (equal label_eqb yp yt) true.
Proof.
  unfold matching. revert yt.
  induction yp as [| p yp IH]; intros [| t yt]; simpl; try reflexivity.
  destruct (label_eqb p t); simpl; rewrite IH; reflexivity.
Qed.

Lemma equal_length yp yt :
  List.length yp = List.length yt ->
  List.length (equal label_eqb yp yt) = List.length yt.
Proof.
  revert yt. induction yp as [| p yp IH]; intros [| t yt]; simpl;
    intros H; try discriminate; [reflexivity |].
  f_equal. apply IH. congruence.
Qed.

Lemma sum_of_bools bs : forall q,
  exists s,
    fold_left add (map of_bool bs) (Num q) = Num s /\
    s == q + inject_Z (Z.of_nat (count_occ bool_dec bs true)).
Proof.
  induction bs as [| b bs IH]; intros q.
  - exists q. split; [reflexivity |]. simpl. change (inject_Z 0) with 0. lra.
  - destruct (IH (q + (if b then 1 else 0))) as (s & Hs & Heq).
    exists s. split; [exact Hs |]. rewrite Heq.
    destruct b; cbn [count_occ]; destruct (bool_dec _ _) as [E | E];
      try discriminate E; try (exfalso; apply E; reflexivity).
    + rewrite Nat2Z.inj_succ, <- Z.add_1_r, inject_Z_plus.
      change (inject_Z 1) with 1. lra.
    + lra.
Qed.

Lemma error_rate_fraction yp yt :
  List.length yp = List.length yt ->
  feq (error_rate yp yt) (sub (Num 1) (fraction_matching yp yt)).
Proof.
  intros Hlen. unfold error_rate, fraction_matching.
  pose proof (equal_length yp yt Hlen) as Hel.
  rewrite matching_equal.
  destruct yt as [| t yt].
  - destruct yp; [exact I | discriminate].
  - destruct (equal label_eqb yp (t :: yt)) as [| b bs] eqn:He;
      [discriminate |].
    unfold mean, sum. cbn [map].
    destruct (sum_of_bools (b :: bs) 0) as (s & Hs & Heq).
    cbn [map] in Hs. rewrite Hs. cbn [sub feq].
    unfold size. cbn [List.length] in Hel |- *. rewrite length_map.
    injection Hel as ->. rewrite Heq, Qplus_0_l. reflexivity.
Qed.

(** ** The figure of a sweep that completes *)

Lemma cell4_traces cs w w' fig :
  cell4 heldout rounds X y seed cs w = (w', Ok fig) ->
  exists evs,
    calls w' = calls w ++ evs /\
    fig_data fig = data w' /\
    Forall2 (fun nc tr =>
               exists w1 evs1 w2 yy,
                 curve_run rounds X y heldout (classifier_start seed nc w1)
                   evs1 w2 (Ok yy) /\
                 incl evs1 evs /\ tr = trace_of heldout nc yy)
            cs (fig_data fig).
Proof.
  intros H. destruct (cell4_runs cs w) as (evs & w1 & res & Hrun & Hcell).
  rewrite Hcell in H. destruct res as [[] | e]; [| discriminate].
  injection H as <- <-. exists evs.
  pose proof (sweep_run_frame Hrun) as Hc.
  destruct (sweep_run_traces Hrun) as (traces & Hd & Hall & Hlen).
  simpl in Hc, Hd. split; [exact Hc |]. split; [reflexivity |].
  rewrite (Hlen tt eq_refl), firstn_all in Hall. simpl. rewrite Hd.
  exact Hall.
Qed.

Lemma curve_values_bounded evs hs vs :
  Forall2 (fun p v =>
             exists w1 evs1 w2 es,
               rounds_run X y p (range rounds) w1 evs1 w2 (Ok es) /\
               incl evs1 evs /\ v = mean es) hs vs ->
  Forall (fun v => v = NaN \/ in_unit v) vs /\
  ((0 < rounds)%Z -> Forall (fun ev => ~ compares_nothing ev) evs ->
   Forall in_unit vs).
Proof.
  induction 1 as [| p v hs vs (w1 & evs1 & w2 & es & Hrun & Hincl & ->)
                    _ [IHa IHb]].
  - split; constructor.
  - destruct (rounds_run_values Hrun) as (Hlen & Hall & Hunit). split.
    + constructor; [apply mean_NaN_or_unit, Hall | exact IHa].
    + intros Hpos Hev. constructor; [| apply IHb; assumption].
      apply mean_in_unit.
      * rewrite range_length in Hlen. destruct es; [| discriminate].
        simpl in Hlen. lia.
      * apply Hunit. rewrite Forall_forall in *. intros ev Hin.
        apply Hev, Hincl, Hin.
Qed.

(** ** Calls of the library print nothing *)

Lemma rounds_run_library_calls i rs w evs w' res :
  rounds_run X y i rs w evs w' res ->
  Forall (fun ev => is_library_call ev = true) evs.
Proof.
  induction 1 as [w | r rs w evs w1 e Hr
                 | r rs w evs w1 a evs' w2 res Hr Hrest IH].
  - constructor.
  - apply (round_runs_frame Hr).
  - apply Forall_app. split; [apply (round_runs_frame Hr) | exact IH].
Qed.

Lemma curve_run_library_calls hs w evs w' res :
  curve_run rounds X y hs w evs w' res ->
  Forall (fun ev => is_library_call ev = true) evs.
Proof.
  induction 1 as [w | i hs w evs w1 e Hr
                 | i hs w evs w1 es evs' w2 res Hr Hrest IH].
  - constructor.
  - exact (rounds_run_library_calls Hr).
  - apply Forall_app. split; [exact (rounds_run_library_calls Hr) | exact IH].
Qed.

(** ** The rounds in the list of calls *)

Lemma sum_numbers qs : forall a,
  fold_left add (map Num qs) (Num a) = Num (fold_left Qplus qs a).
Proof.
  induction qs as [| q qs IH]; intros a; [reflexivity |].
  cbn [map fold_left add]. apply IH.
Qed.

Lemma numbers_some es qs : numbers es = Some qs -> es = map Num qs.
Proof.
  revert qs. induction es as [| [q |] es IH]; intros qs H; cbn in H.
  - injection H as <-. reflexivity.
  - destruct (numbers es) as [qs' |]; [| discriminate H].
    injection H as <-. cbn [map]. f_equal. apply IH. reflexivity.
  - discriminate H.
Qed.

Lemma numbers_none es : numbers es = None -> In NaN es.
Proof.
  induction es as [| [q |] es IH]; intros H; cbn in H.
  - discriminate H.
  - destruct (numbers es); [discriminate H |]. right. apply IH. reflexivity.
  - left. reflexivity.
Qed.

(** [np.mean] is the arithmetic mean. *)
Lemma mean_arithmetic es : mean es = arithmetic_mean es.
Proof.
  unfold arithmetic_mean. destruct (numbers es) as [[| q qs] |] eqn:Hn.
  - apply numbers_some in Hn. subst es. reflexivity.
  - apply numbers_some in Hn. subst es. unfold mean, sum, size.
    cbn [map]. change (Num q :: map Num qs) with (map Num (q :: qs)).
    rewrite sum_numbers, length_map. reflexivity.
  - apply mean_with_NaN, numbers_none, Hn.
Qed.

Lemma groups_length (A : Type) (width count : nat) : forall l : list A,
  List.length (groups width count l) = count.
Proof.
  induction count as [| count IH]; intros l; [reflexivity |].
  cbn [groups List.length]. rewrite IH. reflexivity.
Qed.

Lemma firstn_exact (A : Type) (l l' : list A) :
  firstn (List.length l) (l ++ l') = l.
Proof.
  rewrite firstn_app, Nat.sub_diag, firstn_all. cbn [firstn].
  apply app_nil_r.
Qed.

Lemma skipn_exact (A : Type) (l l' : list A) :
  skipn (List.length l) (l ++ l') = l'.
Proof.
  rewrite skipn_app, Nat.sub_diag, skipn_all. reflexivity.
Qed.

Lemma iterations_unfold ev (evs : list Event) :
  iterations (ev :: evs)
  = match iterations evs with
    | it :: its =>
        if opens_iteration evs then [ev] :: it :: its else (ev :: it) :: its
    | [] => [[ev]]
    end.
Proof. reflexivity. Qed.

Lemma iterations_nonempty ev (evs : list Event) : iterations (ev :: evs) <> [].
Proof.
  rewrite iterations_unfold. destruct (iterations evs); [discriminate |].
  destruct (opens_iteration evs); discriminate.
Qed.

(** An iteration lasts until the next printed line. *)
Lemma iterations_cons (body rest : list Event) : forall ev,
  Forall (fun e => is_print e = false) body ->
  opens_iteration rest = true \/ rest = [] ->
  iterations (ev :: body ++ rest) = (ev :: body) :: iterations rest.
Proof.
  induction body as [| b body IH]; intros ev Hbody Hrest.
  - cbn [app]. rewrite iterations_unfold.
    destruct rest as [| r rest]; [reflexivity |].
    destruct Hrest as [Hopen | Hnil]; [| discriminate Hnil].
    rewrite Hopen.
    destruct (iterations (r :: rest)) as [| it its] eqn:Hit;
      [exfalso; exact (@iterations_nonempty r rest Hit) | reflexivity].
  - inversion Hbody as [| b' body' Hb Hbody']; subst.
    cbn [app]. rewrite iterations_unfold, (IH b Hbody' Hrest).
    cbn [opens_iteration]. rewrite Hb. reflexivity.
Qed.

Lemma library_call_no_print (evs : list Event) :
  Forall (fun ev => is_library_call ev = true) evs ->
  Forall (fun ev => is_print ev = false) evs.
Proof.
  apply Forall_impl. intros [] H; simpl in *; congruence.
Qed.

(** The rounds of a proportion, as the list of calls shows them: one
    observation per round, at the test size of the proportion, with the
    error rate the round recorded. *)
Lemma rounds_run_observations i rs w evs w' es :
  rounds_run X y i rs w evs w' (Ok es) ->
  forall rest,
    observations (evs ++ rest) = map (pair i) es ++ observations rest.
Proof.
  intros H. remember (Ok es) as res eqn:Hres. revert es Hres.
  induction H as [w | r rs w evs w1 e Hr
                 | r rs w evs w1 a evs' w2 res Hr Hrest IH];
    intros es Hres rest.
  - injection Hres as <-. reflexivity.
  - discriminate.
  - apply extend_ok in Hres. destruct Hres as (es' & -> & ->).
    rewrite <- app_assoc.
    inversion Hr as [| | | g' sp ent' c' yp Hs Hf Hp]; subst.
    subst evs0. cbn [app observations map].
    rewrite (IH es' eq_refl rest). reflexivity.
Qed.

Lemma map_snd_pair (A B : Type) (a : A) (l : list B) :
  map snd (map (pair a) l) = l.
Proof.
  induction l as [| b l IH]; [reflexivity |]. cbn. rewrite IH. reflexivity.
Qed.

(** The proportions of a classifier, as the list of calls shows them: the
    observations come in groups of [rounds], one group per proportion in
    the order of the proportions; the value kept for a proportion is the
    mean of the error rates of its group. *)
Lemma curve_run_observations hs w evs w' vs :
  curve_run rounds X y hs w evs w' (Ok vs) ->
  forall rest,
    Forall2 (fun p bv =>
               List.length (fst bv) = Z.to_nat rounds /\
               Forall (fun o => fst o = p) (fst bv) /\
               snd bv = mean (map snd (fst bv)))
      hs (combine (groups (Z.to_nat rounds) (List.length hs)
                     (observations (evs ++ rest))) vs) /\
    observations (evs ++ rest)
    = concat (groups (Z.to_nat rounds) (List.length hs)
                (observations (evs ++ rest)))
      ++ observations rest.
Proof.
  intros H. remember (Ok vs) as res eqn:Hres. revert vs Hres.
  induction H as [w | i hs w evs w1 e Hr
                 | i hs w evs w1 es evs' w2 res Hr Hrest IH];
    intros vs Hres rest.
  - injection Hres as <-. split; [constructor | reflexivity].
  - discriminate.
  - apply extend_ok in Hres. destruct Hres as (vs' & -> & ->).
    destruct (IH vs' eq_refl rest) as [IHa IHb].
    destruct (rounds_run_values Hr) as (Hlen & _ & _).
    rewrite range_length in Hlen.
    rewrite <- app_assoc, (rounds_run_observations Hr (evs' ++ rest)).
    cbn [List.length groups app combine concat].
    assert (Hl : Z.to_nat rounds = List.length (map (pair i) es))
      by (rewrite length_map; symmetry; exact Hlen).
    replace (firstn (Z.to_nat rounds)
               (map (pair i) es ++ observations (evs' ++ rest)))
      with (map (pair i) es)
      by (rewrite Hl; symmetry; apply firstn_exact).
    replace (skipn (Z.to_nat rounds)
               (map (pair i) es ++ observations (evs' ++ rest)))
      with (observations (evs' ++ rest))
      by (rewrite Hl; symmetry; apply skipn_exact).
    split.
    + constructor; [| exact IHa]. cbn [fst snd].
      split; [rewrite length_map; exact Hlen |].
      split; [| rewrite map_snd_pair; reflexivity].
      apply Forall_forall. intros o Ho. apply in_map_iff in Ho.
      destruct Ho as (e & <- & _). reflexivity.
    + rewrite <- app_assoc, <- IHb. reflexivity.
Qed.

Lemma sweep_run_opens cs w evs w' res :
  sweep_run heldout rounds X y seed cs w evs w' res ->
  opens_iteration evs = true \/ evs = [].
Proof.
  intros H. destruct H; [right | left | left]; reflexivity.
Qed.

(** The classifiers of a sweep that completes, as the list of calls shows
    them: one iteration per classifier, in order, opened by the two calls
    of the classifier; the trace of the classifier holds, proportion after
    proportion, the mean of the error rates of the [rounds] rounds that the
    iteration ran at that proportion. *)
Lemma sweep_run_iterations cs w evs w' :
  sweep_run heldout rounds X y seed cs w evs w' (Ok tt) ->
  exists traces,
    data w' = data w ++ traces /\
    List.length traces = List.length cs /\
    List.length (iterations evs) = List.length cs /\
    Forall2 (fun nctr it =>
               firstn 2 it = prelude seed (fst nctr) /\
               sc_name (snd nctr) = fst (fst nctr) /\
               List.length (sc_y (snd nctr)) = List.length heldout /\
               Forall2 (fun p bv =>
                          List.length (fst bv) = Z.to_nat rounds /\
                          Forall (fun o => fst o = p) (fst bv) /\
                          snd bv = mean (map snd (fst bv)))
                 heldout
                 (combine (groups (Z.to_nat rounds) (List.length heldout)
                             (observations it))
                    (sc_y (snd nctr))) /\
               observations it
               = concat (groups (Z.to_nat rounds) (List.length heldout)
                           (observations it)))
      (combine cs traces) (iterations evs).
Proof.
  intros H. remember (Ok tt) as res eqn:Hres.
  induction H as [w | nc cs w evs w1 e Hc
                 | nc cs w evs w1 yy evs' w2 res Hc Hrest IH].
  - exists []. rewrite app_nil_r. repeat split; constructor.
  - discriminate.
  - destruct (IH Hres) as (traces & Hd & Hlt & Hli & Hall).
    exists (trace_of heldout nc yy :: traces).
    pose proof (curve_run_frame Hc) as [_ Hd1].
    cbn [with_trace classifier_start data] in Hd, Hd1.
    assert (Hits : iterations (prelude seed nc ++ evs ++ evs')
                   = (prelude seed nc ++ evs) :: iterations evs').
    { unfold prelude. cbn [app].
      apply (@iterations_cons (EvRandomState seed :: evs) evs').
      - constructor; [reflexivity |].
        apply library_call_no_print, (curve_run_library_calls Hc).
      - subst res. exact (sweep_run_opens Hrest). }
    rewrite Hits. split; [| split; [| split]].
    + rewrite Hd, Hd1, <- app_assoc. reflexivity.
    + cbn [List.length]. rewrite Hlt. reflexivity.
    + cbn [List.length]. rewrite Hli. reflexivity.
    + cbn [combine]. constructor; [| exact Hall].
      cbn [fst snd trace_of sc_y sc_name]. split; [reflexivity |].
      split; [reflexivity |].
      split; [symmetry; eapply Forall2_length; exact (curve_run_values Hc) |].
      change (observations (prelude seed nc ++ evs))
        with (observations evs).
      destruct (curve_run_observations Hc []) as [Ha Hb].
      rewrite !app_nil_r in Ha, Hb.
      change (@observations lib []) with (@nil (Q * float)) in Hb.
      rewrite app_nil_r in Hb. split; [exact Ha | exact Hb].
Qed.

(** The same of cell In [4]. *)
Lemma cell4_iterations cs w w' fig evs :
  cell4 heldout rounds X y seed cs w = (w', Ok fig) ->
  calls w' = calls w ++ evs ->
  List.length (fig_data fig) = List.length cs /\
  List.length (iterations evs) = List.length cs /\
  Forall2 (fun nctr it =>
             firstn 2 it = prelude seed (fst nctr) /\
             sc_name (snd nctr) = fst (fst nctr) /\
             List.length (sc_y (snd nctr)) = List.length heldout /\
             Forall2 (fun p bv =>
                        List.length (fst bv) = Z.to_nat rounds /\
                        Forall (fun o => fst o = p) (fst bv) /\
                        snd bv = mean (map snd (fst bv)))
               heldout
               (combine (groups (Z.to_nat rounds) (List.length heldout)
                           (observations it))
                  (sc_y (snd nctr))) /\
             observations it
             = concat (groups (Z.to_nat rounds) (List.length heldout)
                         (observations it)))
    (combine cs (fig_data fig)) (iterations evs).
Proof.
  intros H Hcalls.
  destruct (cell4_runs cs w) as (evs' & w1 & res & Hrun & Hcell).
  rewrite Hcell in H. destruct res as [[] | e]; [| discriminate].
  injection H as <- <-.
  pose proof (sweep_run_frame Hrun) as Hc. cbn [calls] in Hc.
  rewrite Hc in Hcalls. apply app_inv_head in Hcalls. subst evs'.
  destruct (sweep_run_iterations Hrun) as (traces & Hd & Hlt & Hli & Hall).
  cbn [data app fig_data] in *. rewrite Hd.
  split; [exact Hlt |]. split; [exact Hli | exact Hall].
Qed.

(** ** Rounds that compare labels

    When the library keeps to its contract, a split of the dataset at a
    configured proportion having test rows with a label each, and [predict]
    returning one label per row, no call of the sweep compares nothing. *)

Lemma round_runs_compares i w evs w' res :
  (forall g g' sp,
      train_test_split X y i g = (g', Ok sp) ->
      y_test sp <> [] /\ List.length (X_test sp) = List.length (y_test sp)) ->
  (forall c Xte yp,
      predict c Xte = Ok yp -> List.length yp = List.length Xte) ->
  round_runs X y i w evs w' res ->
  Forall (fun ev => ~ compares_nothing ev) evs.
Proof.
  intros Hsplit Hpredict H.
  destruct H as [g' e Hs | g' sp ent' e Hs Hf
                | g' sp ent' c' e Hs Hf Hp
                | g' sp ent' c' yp Hs Hf Hp];
    subst evs; repeat constructor; cbn [compares_nothing]; auto;
    try exact (proj1 (Hsplit _ _ _ Hs)).
  intros Hnil. destruct (Hsplit _ _ _ Hs) as [Hne Hlen].
  apply Hpredict in Hp. rewrite Hnil, Hlen in Hp.
  destruct (y_test sp); [exact (Hne eq_refl) | discriminate Hp].
Qed.

Lemma rounds_run_compares i rs w evs w' res :
  (forall g g' sp,
      train_test_split X y i g = (g', Ok sp) ->
      y_test sp <> [] /\ List.length (X_test sp) = List.length (y_test sp)) ->
  (forall c Xte yp,
      predict c Xte = Ok yp -> List.length yp = List.length Xte) ->
  rounds_run X y i rs w evs w' res ->
  Forall (fun ev => ~ compares_nothing ev) evs.
Proof.
  intros Hsplit Hpredict.
  induction 1 as [w | r rs w evs w1 e Hr
                 | r rs w evs w1 a evs' w2 res Hr Hrest IH].
  - constructor.
  - exact (round_runs_compares Hsplit Hpredict Hr).
  - apply Forall_app. split; [| exact IH].
    exact (round_runs_compares Hsplit Hpredict Hr).
Qed.

Lemma curve_run_compares hs w evs w' res :
  (forall p g g' sp,
      In p hs ->
      train_test_split X y p g = (g', Ok sp) ->
      y_test sp <> [] /\ List.length (X_test sp) = List.length (y_test sp)) ->
  (forall c Xte yp,
      predict c Xte = Ok yp -> List.length yp = List.length Xte) ->
  curve_run rounds X y hs w evs w' res ->
  Forall (fun ev => ~ compares_nothing ev) evs.
Proof.
  intros Hsplit Hpredict H.
  induction H as [w | i hs w evs w1 e Hr
                 | i hs w evs w1 es evs' w2 res Hr Hrest IH].
  - constructor.
  - refine (rounds_run_compares _ Hpredict Hr).
    intros g g' sp. apply Hsplit. left. reflexivity.
  - apply Forall_app. split.
    + refine (rounds_run_compares _ Hpredict Hr).
      intros g g' sp. apply Hsplit. left. reflexivity.
    + apply IH. intros p g g' sp Hin. apply Hsplit. right. exact Hin.
Qed.

Lemma sweep_run_compares cs w evs w' res :
  (forall p g g' sp,
      In p heldout ->
      train_test_split X y p g = (g', Ok sp) ->
      y_test sp <> [] /\ List.length (X_test sp) = List.length (y_test sp)) ->
  (forall c Xte yp,
      predict c Xte = Ok yp -> List.length yp = List.length Xte) ->
  sweep_run heldout rounds X y seed cs w evs w' res ->
  Forall (fun ev => ~ compares_nothing ev) evs.
Proof.
  intros Hsplit Hpredict.
  induction 1 as [w | nc cs w evs w1 e Hc
                 | nc cs w evs w1 yy evs' w2 res Hc Hrest IH].
  - constructor.
  - unfold prelude. cbn [app]. repeat constructor; auto.
    exact (curve_run_compares Hsplit Hpredict Hc).
  - unfold prelude. cbn [app]. repeat constructor; auto.
    apply Forall_app. split; [| exact IH].
    exact (curve_run_compares Hsplit Hpredict Hc).
Qed.

(** ** The curve of a classifier *)

Lemma mean_single e : feq (mean [e]) e.
Proof.
  destruct e as [q |]; [| exact I]. unfold mean, sum, size. simpl.
  unfold Qdiv. change (/ inject_Z 1) with 1. lra.
Qed.

(** C1.  On a sweep that completes, for a valid configuration (a positive
    number of rounds, and proportions at which the library keeps to its
    contract: a split has test rows, a label for each, and [predict]
    returns one label per row, as scikit-learn does for a proportion
    strictly between 0 and 1), the figure holds one curve per classifier,
    named after it, in the order of the classifier sequence; each curve has
    exactly one value per configured held-out proportion, and every value
    lies in [0,1].  The values stand in the order of the proportion
    sequence: the list of calls shows one iteration per classifier, opened
    by the line that names it, and the value at the position of a
    proportion is the mean of the error rates of the rounds that this
    iteration ran with that proportion as test size. *)
Theorem sweep_curve_shape cs w w' fig evs :
  cell4 heldout rounds X y seed cs w = (w', Ok fig) ->
  calls w' = calls w ++ evs ->
  (0 < rounds)%Z ->
  (forall p g g' sp,
      In p heldout ->
      train_test_split X y p g = (g', Ok sp) ->
      y_test sp <> [] /\ List.length (X_test sp) = List.length (y_test sp)) ->
  (forall c Xte yp,
      predict c Xte = Ok yp -> List.length yp = List.length Xte) ->
  Forall2 (fun nc tr =>
             sc_name tr = fst nc /\
             List.length (sc_y tr) = List.length heldout /\
             Forall in_unit (sc_y tr))
          cs (fig_data fig) /\
  List.length (iterations evs) = List.length cs /\
  Forall2 (fun nctr it =>
             firstn 2 it = prelude seed (fst nctr) /\
             Forall2 (fun p bv =>
                        fst bv <> [] /\
                        Forall (fun o => fst o = p) (fst bv) /\
                        snd bv = mean (map snd (fst bv)))
               heldout
               (combine (groups (Z.to_nat rounds) (List.length heldout)
                           (observations it))
                  (sc_y (snd nctr))))
    (combine cs (fig_data fig)) (iterations evs).
Proof.
  intros H Hcalls Hpos Hsplit Hpredict.
  assert (Hev : Forall (fun ev => ~ compares_nothing ev) evs).
  { destruct (cell4_runs cs w) as (evs' & w1 & res & Hrun & Hcell).
    pose proof H as H'. rewrite Hcell in H'. injection H' as <- _.
    pose proof (sweep_run_frame Hrun) as Hc. cbn [calls] in Hc.
    rewrite Hc in Hcalls. apply app_inv_head in Hcalls. subst evs'.
    exact (sweep_run_compares Hsplit Hpredict Hrun). }
  destruct (@cell4_iterations cs w w' fig evs H Hcalls) as (_ & Hli & Hits).
  destruct (cell4_traces cs w H) as (evs' & Hc & _ & Hall).
  rewrite Hc in Hcalls. apply app_inv_head in Hcalls. subst evs'.
  split; [| split; [exact Hli |]].
  - eapply Forall2_impl; [| exact Hall].
    intros nc tr (w1 & evs1 & w2 & yy & Hrun & Hincl & ->).
    cbn [trace_of sc_name sc_y].
    pose proof (curve_run_values Hrun) as Hvals.
    split; [reflexivity |].
    split; [symmetry; eapply Forall2_length; exact Hvals |].
    assert (Hvals' :
      Forall2 (fun p v =>
                 exists wa evsa wb es,
                   rounds_run X y p (range rounds) wa evsa wb (Ok es) /\
                   incl evsa evs /\ v = mean es) heldout yy).
    { eapply Forall2_impl; [| exact Hvals].
      intros p v (wa & evsa & wb & es & Hr & Hi & Hv).
      exists wa, evsa, wb, es. split; [exact Hr |].
      split; [| exact Hv]. intros ev Hin. apply Hincl, Hi, Hin. }
    exact (proj2 (curve_values_bounded Hvals') Hpos Hev).
  - eapply Forall2_impl; [| exact Hits].
    intros nctr it (Hopen & _ & _ & Hvals & _). split; [exact Hopen |].
    eapply Forall2_impl; [| exact Hvals].
    intros p bv (Hlen & Hp & Hv). split; [| split; assumption].
    intros Hnil. rewrite Hnil in Hlen. cbn [List.length] in Hlen. lia.
Qed.

(** C2.  On a sweep that completes, for every classifier and every held-out
    proportion [p], the curve value recorded for [p] is the arithmetic mean
    of the error rates of the rounds that the iteration of this classifier
    ran at test size [p], as the list of calls shows them: these are exactly
    [rounds] observations (none when [rounds] is negative), every round of
    the iteration belongs to one proportion, and the value is their sum
    over their number.  With [rounds = 1] the value is the single error
    rate observed. *)
Theorem curve_value_mean_of_rounds cs w w' fig evs :
  cell4 heldout rounds X y seed cs w = (w', Ok fig) ->
  calls w' = calls w ++ evs ->
  List.length (fig_data fig) = List.length cs /\
  List.length (iterations evs) = List.length cs /\
  Forall2 (fun nctr it =>
             firstn 2 it = prelude seed (fst nctr) /\
             sc_name (snd nctr) = fst (fst nctr) /\
             List.length (sc_y (snd nctr)) = List.length heldout /\
             observations it
             = concat (groups (Z.to_nat rounds) (List.length heldout)
                         (observations it)) /\
             Forall2 (fun p bv =>
                        Z.of_nat (List.length (fst bv)) = Z.max 0 rounds /\
                        Forall (fun o => fst o = p) (fst bv) /\
                        snd bv = arithmetic_mean (map snd (fst bv)) /\
                        (rounds = 1%Z ->
                         exists o, fst bv = [o] /\ feq (snd bv) (snd o)))
               heldout
               (combine (groups (Z.to_nat rounds) (List.length heldout)
                           (observations it))
                  (sc_y (snd nctr))))
    (combine cs (fig_data fig)) (iterations evs).
Proof.
  intros H Hcalls.
  destruct (@cell4_iterations cs w w' fig evs H Hcalls) as (Hlf & Hli & Hits).
  split; [exact Hlf |]. split; [exact Hli |].
  eapply Forall2_impl; [| exact Hits].
  intros nctr it (Hopen & Hname & Hlen & Hvals & Hall).
  split; [exact Hopen |]. split; [exact Hname |]. split; [exact Hlen |].
  split; [exact Hall |].
  eapply Forall2_impl; [| exact Hvals].
  intros p [b v] (Hb & Hp & Hv). cbn [fst snd] in *.
  split; [lia |]. split; [exact Hp |].
  split; [rewrite Hv; apply mean_arithmetic |].
  intros Hone. rewrite Hone in Hb.
  destruct b as [| o [| o' b]]; try discriminate Hb.
  exists o. split; [reflexivity |]. rewrite Hv. apply mean_single.
Qed.

(** C3.  A round that returns appends one error rate to the list of its
    proportion, and that error rate is 1 minus the fraction of the
    predicted test labels that match the true test labels of the split the
    round drew ([predict] returning one label per test row). *)
Theorem round_error_rate i r yy_ w w' out g' sp ent' c' y_pred :
  round_body X y i r yy_ w = (w', Ok out) ->
  train_test_split X y i (rng w) = (g', Ok sp) ->
  fit (clf w) (X_train sp) (y_train sp) (np_random w) = (ent', Ok c') ->
  predict c' (X_test sp) = Ok y_pred ->
  List.length y_pred = List.length (y_test sp) ->
  exists e,
    out = yy_ ++ [e] /\
    feq e (sub (Num 1) (fraction_matching y_pred (y_test sp))).
Proof.
  intros H Hs Hf Hp Hlen.
  destruct (round_body_runs i w) as (evs & w1 & res & Hrun & Hb).
  rewrite Hb in H. destruct res as [e | e]; [| discriminate].
  injection H as <- <-.
  inversion Hrun as [| | | g1 sp1 ent1 c1 yp1 Hs1 Hf1 Hp1]; subst.
  rewrite Hs in Hs1. injection Hs1 as <- <-.
  rewrite Hf in Hf1. injection Hf1 as <- <-.
  rewrite Hp in Hp1. injection Hp1 as <-.
  exists (error_rate y_pred (y_test sp)).
  split; [reflexivity | apply error_rate_fraction, Hlen].
Qed.

(** ** The splits of one classifier *)

Lemma splits_app (evs evs' : list Event) :
  splits (evs ++ evs') = splits evs ++ splits evs'.
Proof. apply filter_app. Qed.

Lemma draws_app g s1 s2 :
  draws X y g (s1 ++ s2) = draws X y g s1 ++ draws X y (advance X y g s1) s2.
Proof.
  revert g. induction s1 as [| i s1 IH]; intros g; simpl;
    [reflexivity | rewrite IH; reflexivity].
Qed.

(** The rounds of a proportion draw their splits from [rng], one after the
    other, and build no generator. *)
Lemma rounds_run_splits i rs w evs w' res :
  rounds_run X y i rs w evs w' res ->
  Forall (fun ev => is_reseed ev = false) evs /\
  (exists rest,
     draws X y (rng w) (map (fun _ => i) rs) = splits evs ++ rest /\
     forall es, res = Ok es ->
                rest = [] /\
                rng w' = advance X y (rng w) (map (fun _ => i) rs)).
Proof.
  induction 1 as [w | r rs w evs w1 e Hr
                 | r rs w evs w1 a evs' w2 res Hr Hrest
                     (IHq & rest & IHd & IHok)].
  - split; [constructor |]. exists []. split; [reflexivity |]. auto.
  - destruct (round_runs_frame Hr) as (_ & _ & _ & Hsp & Hq & _).
    split; [exact Hq |]. simpl. rewrite Hsp. eexists. split; [reflexivity |].
    discriminate.
  - destruct (round_runs_frame Hr) as (_ & _ & Hg & Hsp & Hq & _).
    split; [apply Forall_app; auto |].
    exists rest. rewrite splits_app, Hsp. simpl. rewrite <- Hg, IHd.
    split; [reflexivity |].
    intros es Hes. apply extend_ok in Hes. destruct Hes as (es' & -> & _).
    destruct (IHok es' eq_refl) as [-> ->]. auto.
Qed.

Lemma schedule_cons i hs :
  schedule (i :: hs) rounds
  = map (fun _ => i) (range rounds) ++ schedule hs rounds.
Proof. reflexivity. Qed.

(** One split per round: [rounds] draws for each proportion. *)
Lemma schedule_length hs :
  List.length (schedule hs rounds)
  = (List.length hs * Z.to_nat rounds)%nat.
Proof.
  induction hs as [| i hs IH]; [reflexivity |].
  rewrite schedule_cons, length_app, length_map, range_length, IH.
  reflexivity.
Qed.

Lemma curve_run_splits hs w evs w' res :
  curve_run rounds X y hs w evs w' res ->
  Forall (fun ev => is_reseed ev = false) evs /\
  (exists rest,
     draws X y (rng w) (schedule hs rounds) = splits evs ++ rest /\
     forall vs, res = Ok vs -> rest = []).
Proof.
  induction 1 as [w | i hs w evs w1 e Hr
                 | i hs w evs w1 es evs' w2 res Hr Hrest
                     (IHq & rest & IHd & IHok)].
  - split; [constructor |]. exists []. split; [reflexivity |]. auto.
  - destruct (rounds_run_splits Hr) as (Hq & rest & Hd & _).
    split; [exact Hq |]. rewrite schedule_cons, draws_app, Hd.
    rewrite <- app_assoc. eexists. split; [reflexivity | discriminate].
  - destruct (rounds_run_splits Hr) as (Hq & rest0 & Hd & Hok).
    destruct (Hok es eq_refl) as [-> Hg]. rewrite app_nil_r in Hd.
    split; [apply Forall_app; auto |].
    exists rest. rewrite schedule_cons, draws_app, Hd, <- Hg, IHd.
    rewrite splits_app, app_assoc. split; [reflexivity |].
    intros vs Hvs. apply extend_ok in Hvs. destruct Hvs as (vs' & -> & _).
    eapply IHok. reflexivity.
Qed.

Lemma classifier_body_runs nc w :
  exists evs w1 res,
    curve_run rounds X y heldout (classifier_start seed nc w) evs w1 res /\
    classifier_body heldout rounds X y seed nc tt w
    = match res with
      | Ok yy => (with_trace (trace_of heldout nc yy) w1, Ok tt)
      | Raise e => (w1, Raise e)
      end.
Proof.
  destruct (heldout_loop_runs heldout (classifier_start seed nc w))
    as (evs & w1 & res & Hrun & Hloop).
  exists evs, w1, res. split; [exact Hrun |].
  rewrite classifier_body_start, Hloop. destruct res; reflexivity.
Qed.

Lemma prefix_nth_error (A : Type) (l l' rest : list A) n a :
  l' = l ++ rest -> nth_error l n = Some a -> nth_error l' n = Some a.
Proof.
  intros -> H. rewrite nth_error_app1; [exact H |].
  apply nth_error_Some. congruence.
Qed.

(** C4.  In the iteration of any classifier, whether it returns or raises,
    one generator is built, from the seed, before the first split; no other
    is built during the proportions and rounds; and the splits are drawn in
    order from that one generator, threaded through all proportions and
    rounds: the n-th split of the classifier is the n-th element of
    [draws (RandomState_new seed) schedule], which the seed and n fix (for
    the dataset and the configuration at hand).  A classifier that returns
    has drawn the whole sequence. *)
Theorem classifier_splits_one_sequence nc w w' res :
  classifier_body heldout rounds X y seed nc tt w = (w', res) ->
  exists evs,
    calls w' = calls w ++ prelude seed nc ++ evs /\
    filter is_reseed (prelude seed nc) = [EvRandomState seed] /\
    Forall (fun ev => is_reseed ev = false) evs /\
    (forall n ev,
       nth_error (splits evs) n = Some ev ->
       nth_error (draws X y (RandomState_new seed) (schedule heldout rounds))
         n = Some ev) /\
    (res = Ok tt ->
     splits evs = draws X y (RandomState_new seed) (schedule heldout rounds)).
Proof.
  intros H.
  destruct (classifier_body_runs nc w) as (evs & w1 & r & Hrun & Hbody).
  rewrite Hbody in H. exists evs.
  destruct (curve_run_frame Hrun) as [Hc _].
  destruct (curve_run_splits Hrun) as (Hq & rest & Hd & Hok).
  cbn [classifier_start calls rng] in Hc, Hd.
  assert (Hcalls : calls w' = calls w ++ prelude seed nc ++ evs).
  { destruct r; injection H as <- _; cbn [with_trace calls];
      rewrite Hc, <- app_assoc; reflexivity. }
  split; [exact Hcalls |]. split; [reflexivity |]. split; [exact Hq |].
  split.
  - intros n ev Hn. eapply prefix_nth_error; eassumption.
  - intros ->. destruct r as [yy | e]; [| discriminate].
    rewrite (Hok yy eq_refl), app_nil_r in Hd. symmetry. exact Hd.
Qed.

(** ** The splits of the whole sweep *)

Lemma prelude_reseeds nc : filter is_reseed (prelude seed nc) = [EvRandomState seed].
Proof. reflexivity. Qed.

Lemma no_reseed_filter (evs : list Event) :
  Forall (fun ev => is_reseed ev = false) evs -> filter is_reseed evs = [].
Proof.
  induction 1 as [| ev evs Hev _ IH]; simpl; [reflexivity |].
  rewrite Hev. exact IH.
Qed.

Lemma sweep_run_splits cs w evs w' :
  sweep_run heldout rounds X y seed cs w evs w' (Ok tt) ->
  filter is_reseed evs = map (fun _ => EvRandomState seed) cs /\
  splits evs
  = concat (map (fun _ => draws X y (RandomState_new seed)
                            (schedule heldout rounds)) cs).
Proof.
  intros H. remember (Ok tt) as res eqn:Hres.
  induction H as [w | nc cs w evs w1 e Hc
                 | nc cs w evs w1 yy evs' w2 res Hc Hrest IH].
  - split; reflexivity.
  - discriminate.
  - destruct (IH Hres) as [IHr IHs].
    destruct (curve_run_splits Hc) as (Hq & rest & Hd & Hok).
    rewrite (Hok yy eq_refl), app_nil_r in Hd.
    cbn [classifier_start rng] in Hd. split.
    + rewrite !filter_app, prelude_reseeds, (no_reseed_filter Hq), IHr.
      reflexivity.
    + rewrite !splits_app, IHs, <- Hd. reflexivity.
Qed.

(** C5, as the code has it.  The seed fixes one sequence of splits,
    [draws (RandomState_new seed) schedule], and the sweep restarts it for
    every classifier: one generator is built from the seed per classifier,
    and the splits of a sweep that completes are that same sequence once per
    classifier, each time from its beginning. *)
Theorem sweep_restarts_split_sequence cs w w' fig :
  cell4 heldout rounds X y seed cs w = (w', Ok fig) ->
  exists evs,
    calls w' = calls w ++ evs /\
    filter is_reseed evs = map (fun _ => EvRandomState seed) cs /\
    splits evs
    = concat (map (fun _ => draws X y (RandomState_new seed)
                              (schedule heldout rounds)) cs).
Proof.
  intros H. destruct (cell4_runs cs w) as (evs & w1 & res & Hrun & Hcell).
  rewrite Hcell in H. destruct res as [[] | e]; [| discriminate].
  injection H as <- _. exists evs.
  split; [exact (sweep_run_frame Hrun) | exact (sweep_run_splits Hrun)].
Qed.

(** ** Exceptions *)

Lemma stops_at_raise_app (A : Type) evs1 evs2 (res : PyResult Exn A) :
  quiet evs1 -> stops_at_raise evs2 res -> stops_at_raise (evs1 ++ evs2) res.
Proof.
  intros Hq. destruct res as [a | e]; simpl.
  - intros H. apply Forall_app. auto.
  - intros (pre & ev & -> & Hpre & Hev). exists (evs1 ++ pre), ev.
    rewrite app_assoc. split; [reflexivity |].
    split; [apply Forall_app; auto | exact Hev].
Qed.

Lemma stops_at_raise_extend acc evs res :
  stops_at_raise evs res -> stops_at_raise evs (extend acc res).
Proof. destruct res; exact (fun H => H). Qed.

Lemma round_runs_stops i w evs w' res :
  round_runs X y i w evs w' res -> stops_at_raise evs res.
Proof.
  intros H; destruct H as [g' e Hs | g' sp ent' e Hs Hf
                          | g' sp ent' c' e Hs Hf Hp
                          | g' sp ent' c' yp Hs Hf Hp]; subst evs; simpl.
  - exists [], (EvSplit i (rng w) (Raise e)). repeat split. constructor.
  - exists [EvSplit i (rng w) (Ok sp)],
      (EvFit (clf w) (X_train sp) (y_train sp) (Raise e)).
    repeat split. repeat constructor.
  - exists [EvSplit i (rng w) (Ok sp);
            EvFit (clf w) (X_train sp) (y_train sp) (Ok c')],
      (EvPredict c' (X_test sp) (Raise e)).
    repeat split. repeat constructor.
  - repeat constructor.
Qed.

Lemma rounds_run_stops i rs w evs w' res :
  rounds_run X y i rs w evs w' res -> stops_at_raise evs res.
Proof.
  induction 1 as [w | r rs w evs w1 e Hr
                 | r rs w evs w1 a evs' w2 res Hr Hrest IH].
  - constructor.
  - exact (round_runs_stops Hr).
  - apply stops_at_raise_extend, stops_at_raise_app;
      [exact (round_runs_stops Hr) | exact IH].
Qed.

Lemma curve_run_stops hs w evs w' res :
  curve_run rounds X y hs w evs w' res -> stops_at_raise evs res.
Proof.
  induction 1 as [w | i hs w evs w1 e Hr
                 | i hs w evs w1 es evs' w2 res Hr Hrest IH].
  - constructor.
  - exact (rounds_run_stops Hr).
  - apply stops_at_raise_extend, stops_at_raise_app;
      [exact (rounds_run_stops Hr) | exact IH].
Qed.

Lemma prelude_quiet nc : quiet (prelude seed nc).
Proof. repeat constructor. Qed.

Lemma sweep_run_stops cs w evs w' res :
  sweep_run heldout rounds X y seed cs w evs w' res ->
  stops_at_raise evs res.
Proof.
  induction 1 as [w | nc cs w evs w1 e Hc
                 | nc cs w evs w1 yy evs' w2 res Hc Hrest IH].
  - constructor.
  - apply stops_at_raise_app; [apply prelude_quiet |].
    exact (curve_run_stops Hc).
  - apply stops_at_raise_app; [apply prelude_quiet |].
    apply stops_at_raise_app; [exact (curve_run_stops Hc) | exact IH].
Qed.

Lemma raise_is_last (A : Type) evs (res : PyResult Exn A) pre ev post e :
  stops_at_raise evs res ->
  evs = pre ++ ev :: post -> raised ev = Some e ->
  post = [] /\ res = Raise e.
Proof.
  intros Hstop -> Hev. destruct res as [a | e']; simpl in Hstop.
  - apply Forall_app in Hstop. destruct Hstop as [_ Hq].
    inversion Hq as [| ev0 l0 H0 _]; subst. congruence.
  - destruct Hstop as (pre' & ev' & Heq & Hpre & Hev').
    destruct (exists_last (l := ev :: post)) as (l & x & Hl);
      [discriminate |].
    rewrite Hl, app_assoc in Heq. apply app_inj_tail in Heq.
    destruct Heq as [<- <-]. destruct l as [| ev1 l].
    + simpl in Hl. injection Hl as <- <-. split; [reflexivity |].
      congruence.
    + simpl in Hl. injection Hl as <- _.
      apply Forall_app in Hpre. destruct Hpre as [_ Hq].
      inversion Hq as [| ev0 l0 H0 _]; subst. congruence.
Qed.

(** C9, as the code has it.  When a call of the sweep raises — the split,
    [fit] or [predict] of some round — that call is the last call the cell
    makes: no retry, no further round, proportion or classifier; and the
    cell raises that very exception, with nothing added to it. *)
Theorem raise_ends_the_sweep cs w w' res pre ev post e :
  cell4 heldout rounds X y seed cs w = (w', res) ->
  calls w' = calls w ++ pre ++ ev :: post ->
  raised ev = Some e ->
  post = [] /\ res = Raise e.
Proof.
  intros H Hcalls Hev.
  destruct (cell4_runs cs w) as (evs & w1 & r & Hrun & Hcell).
  rewrite Hcell in H. injection H as <- <-.
  rewrite (sweep_run_frame Hrun) in Hcalls. apply app_inv_head in Hcalls.
  destruct (@raise_is_last _ evs r pre ev post e (sweep_run_stops Hrun)
              Hcalls Hev) as [Hpost Hr].
  split; [exact Hpost |]. rewrite Hr. reflexivity.
Qed.

(** ** A configuration without rounds *)

Lemma range_nonpositive : (rounds <= 0)%Z -> range rounds = [].
Proof.
  intros H. unfold range. replace (Z.to_nat rounds) with 0%nat by lia.
  reflexivity.
Qed.

Lemma curve_run_idle hs w evs w' res :
  hs = [] \/ (rounds <= 0)%Z ->
  curve_run rounds X y hs w evs w' res ->
  evs = [] /\ w' = w /\ res = Ok (map (fun _ => NaN) hs).
Proof.
  intros Hidle H.
  induction H as [w | i hs w evs w1 e Hr
                 | i hs w evs w1 es evs' w2 res Hr Hrest IH].
  - auto.
  - destruct Hidle as [Hnil | Hle]; [discriminate |].
    rewrite (range_nonpositive Hle) in Hr. inversion Hr.
  - destruct Hidle as [Hnil | Hle]; [discriminate |].
    rewrite (range_nonpositive Hle) in Hr.
    inversion Hr; subst.
    destruct (IH (or_intror Hle)) as (-> & -> & ->). auto.
Qed.

Lemma sweep_run_idle cs w evs w' res :
  heldout = [] \/ (rounds <= 0)%Z ->
  sweep_run heldout rounds X y seed cs w evs w' res ->
  evs = flat_map (prelude seed) cs /\
  res = Ok tt /\
  data w'
  = data w
    ++ map (fun nc => trace_of heldout nc (map (fun _ => NaN) heldout)) cs.
Proof.
  intros Hidle H.
  induction H as [w | nc cs w evs w1 e Hc
                 | nc cs w evs w1 yy evs' w2 res Hc Hrest IH].
  - rewrite app_nil_r. auto.
  - destruct (curve_run_idle Hidle Hc) as (_ & _ & Hres). discriminate.
  - destruct (curve_run_idle Hidle Hc) as (-> & -> & Hres).
    injection Hres as ->. destruct IH as (-> & -> & Hd).
    split; [reflexivity |]. split; [reflexivity |].
    rewrite Hd. cbn [with_trace classifier_start data map].
    rewrite <- app_assoc. reflexivity.
Qed.

(** C7, as the code has it.  With an empty held-out-proportion list or a
    non-positive [rounds] the cell reports no error: it returns its figure.
    No round executes: the only calls are, per classifier, the [print] and
    the construction of the generator, so no split is drawn and no
    classifier is fitted.  Each curve holds one NaN per proportion (none
    for an empty list). *)
Theorem no_rounds_no_error cs w w' res :
  heldout = [] \/ (rounds <= 0)%Z ->
  cell4 heldout rounds X y seed cs w = (w', res) ->
  res = Ok (mkFigure
              (map (fun nc =>
                      trace_of heldout nc (map (fun _ => NaN) heldout)) cs)
              layout) /\
  calls w' = calls w ++ flat_map (prelude seed) cs /\
  Forall (fun ev => is_library_call ev = false) (flat_map (prelude seed) cs).
Proof.
  intros Hidle H.
  destruct (cell4_runs cs w) as (evs & w1 & r & Hrun & Hcell).
  rewrite Hcell in H. injection H as <- <-.
  pose proof (sweep_run_frame Hrun) as Hc.
  destruct (sweep_run_idle Hidle Hrun) as (-> & -> & Hd).
  cbn [data calls] in Hc, Hd. rewrite Hd. repeat split; [exact Hc |].
  clear. induction cs as [| nc cs IH]; simpl; repeat constructor; exact IH.
Qed.

(** ** A split with an empty test set *)

Lemma rounds_run_empty_test i rs w evs w' es g sp :
  rounds_run X y i rs w evs w' (Ok es) ->
  In (EvSplit i g (Ok sp)) evs -> y_test sp = [] -> In NaN es.
Proof.
  intros H. remember (Ok es) as res eqn:Hres. revert es Hres.
  induction H as [w | r rs w evs w1 e Hr
                 | r rs w evs w1 a evs' w2 res Hr Hrest IH];
    intros es Hres Hin Hy.
  - destruct Hin.
  - discriminate.
  - apply extend_ok in Hres. destruct Hres as (es' & -> & ->).
    apply in_app_or in Hin. destruct Hin as [Hin | Hin].
    + left.
      inversion Hr as [| | | g' sp' ent' c' yp Hs Hf Hp]; subst.
      destruct Hin as [Heq | [Heq | [Heq | []]]]; try discriminate.
      injection Heq as _ <-. rewrite Hy.
      apply error_rate_no_test_label.
    + right. simpl. eapply IH; eauto.
Qed.

(** C8, as the code has it.  The cell checks no split.  When a proportion
    returns and one of its splits came back with an empty test set, the
    value appended to the curve for that proportion is NaN: the round
    compared no label, recorded NaN, and the mean over the rounds is NaN.
    Nothing is raised for it. *)
Theorem empty_test_set_records_nan i yy w w' out evs g sp :
  heldout_body rounds X y i yy w = (w', Ok out) ->
  calls w' = calls w ++ evs ->
  In (EvSplit i g (Ok sp)) evs ->
  y_test sp = [] ->
  out = yy ++ [NaN].
Proof.
  intros H Hcalls Hin Hy.
  destruct (rounds_loop_runs i (range rounds) w)
    as (evs' & w1 & res & Hrun & Hloop).
  unfold heldout_body, bind, ret in H. rewrite Hloop in H.
  destruct res as [es | e]; [| discriminate]. simpl in H.
  injection H as <- <-.
  rewrite (proj1 (rounds_run_frame Hrun)) in Hcalls.
  apply app_inv_head in Hcalls. subst evs'.
  rewrite (mean_with_NaN _ (rounds_run_empty_test _ _ Hrun Hin Hy)).
  reflexivity.
Qed.

(** ** Two runs side by side *)

Lemma round_body_alike D i r acc w1 w2 :
  entropy_free D -> alike D w1 w2 ->
  snd (round_body X y i r acc w1) = snd (round_body X y i r acc w2) /\
  (forall a, snd (round_body X y i r acc w1) = Ok a ->
             alike D (fst (round_body X y i r acc w1))
                     (fst (round_body X y i r acc w2))).
Proof.
  intros Hfree (Hg & Hc & HD).
  unfold round_body, bind, call_train_test_split, call_fit, call_predict,
    ret, emit.
  rewrite <- Hg, <- Hc.
  destruct (train_test_split X y i (rng w1)) as [g' [sp | e]];
    cbn [rng clf np_random data calls fst snd];
    [| split; [reflexivity | discriminate]].
  destruct (Hfree (clf w1) (X_train sp) (y_train sp) (np_random w1)
              (np_random w2) HD) as [Heq Hclosed].
  destruct (fit (clf w1) (X_train sp) (y_train sp) (np_random w1))
    as [ent1 r1].
  destruct (fit (clf w1) (X_train sp) (y_train sp) (np_random w2))
    as [ent2 r2].
  cbn [snd] in Heq, Hclosed. subst r2.
  destruct r1 as [c' | e]; cbn [rng clf np_random data calls fst snd];
    [| split; [reflexivity | discriminate]].
  destruct (predict c' (X_test sp)) as [yp | e]; cbn [fst snd];
    [| split; [reflexivity | discriminate]].
  split; [reflexivity |]. intros _ _. repeat split. apply Hclosed.
  reflexivity.
Qed.

Lemma for_in_alike (A S : Type) (R : World -> World -> Prop)
    (body : A -> S -> M S) :
  (forall x acc w1 w2,
     R w1 w2 ->
     snd (body x acc w1) = snd (body x acc w2) /\
     (forall a, snd (body x acc w1) = Ok a ->
                R (fst (body x acc w1)) (fst (body x acc w2)))) ->
  forall xs acc w1 w2,
    R w1 w2 ->
    snd (for_in xs body acc w1) = snd (for_in xs body acc w2) /\
    (forall a, snd (for_in xs body acc w1) = Ok a ->
               R (fst (for_in xs body acc w1))
                 (fst (for_in xs body acc w2))).
Proof.
  intros Hbody. induction xs as [| x xs IH]; intros acc w1 w2 HR; simpl.
  - split; [reflexivity | intros _ _; exact HR].
  - unfold bind. destruct (Hbody x acc w1 w2 HR) as [Hres Hnext].
    destruct (body x acc w1) as [w1' [a | e]];
      destruct (body x acc w2) as [w2' [a' | e']];
      cbn [fst snd] in Hres, Hnext; try discriminate.
    + injection Hres as <-. apply IH. eapply Hnext. reflexivity.
    + injection Hres as <-. split; [reflexivity | discriminate].
Qed.

Lemma heldout_body_alike D i yy w1 w2 :
  entropy_free D -> alike D w1 w2 ->
  snd (heldout_body rounds X y i yy w1)
  = snd (heldout_body rounds X y i yy w2) /\
  (forall a, snd (heldout_body rounds X y i yy w1) = Ok a ->
             alike D (fst (heldout_body rounds X y i yy w1))
                     (fst (heldout_body rounds X y i yy w2))).
Proof.
  intros Hfree HR. unfold heldout_body, bind, ret.
  destruct (for_in_alike (alike D) (round_body X y i)
              (fun r acc wa wb Hab =>
                 round_body_alike i r acc Hfree Hab)
              (range rounds) [] w1 w2 HR) as [Hres Hnext].
  destruct (for_in (range rounds) (round_body X y i) [] w1)
    as [w1' [a | e]];
    destruct (for_in (range rounds) (round_body X y i) [] w2)
      as [w2' [a' | e']];
    cbn [fst snd] in Hres, Hnext |- *; try discriminate.
  - injection Hres as <-. split; [reflexivity |].
    intros _ _. eapply Hnext. reflexivity.
  - injection Hres as <-. split; [reflexivity | discriminate].
Qed.

(** The proportions of a deterministic classifier return the same values,
    or raise the same exception, from any two states that are alike. *)
Lemma heldout_loop_alike D w1 w2 :
  entropy_free D -> alike D w1 w2 ->
  snd (for_in heldout (heldout_body rounds X y) [] w1)
  = snd (for_in heldout (heldout_body rounds X y) [] w2).
Proof.
  intros Hfree HR.
  apply (for_in_alike (alike D) (heldout_body rounds X y)
           (fun i acc wa wb Hab => heldout_body_alike i acc Hfree Hab)
           heldout [] w1 w2 HR).
Qed.

Lemma heldout_loop_data w :
  data (fst (for_in heldout (heldout_body rounds X y) [] w)) = data w.
Proof.
  destruct (heldout_loop_runs heldout w) as (evs & w' & res & Hrun & Hloop).
  rewrite Hloop. exact (proj2 (curve_run_frame Hrun)).
Qed.

Lemma classifier_start_alike D nc w1 w2 :
  D (snd nc) ->
  alike D (classifier_start seed nc w1) (classifier_start seed nc w2).
Proof. intros HD. repeat split. exact HD. Qed.

(** The iteration of a deterministic classifier, from two states with the
    same [data]: the same outcome and the same [data] afterwards. *)
Lemma classifier_body_alike nc w1 w2 :
  deterministic (snd nc) -> data w1 = data w2 ->
  snd (classifier_body heldout rounds X y seed nc tt w1)
  = snd (classifier_body heldout rounds X y seed nc tt w2) /\
  data (fst (classifier_body heldout rounds X y seed nc tt w1))
  = data (fst (classifier_body heldout rounds X y seed nc tt w2)).
Proof.
  intros (D & HD & Hfree) Hdata. rewrite !classifier_body_start.
  pose proof (heldout_loop_alike Hfree
                (classifier_start_alike D nc w1 w2 HD)) as Hres.
  pose proof (heldout_loop_data (classifier_start seed nc w1)) as Hd1.
  pose proof (heldout_loop_data (classifier_start seed nc w2)) as Hd2.
  destruct (for_in heldout (heldout_body rounds X y) []
              (classifier_start seed nc w1)) as [w1' [yy | e]];
    destruct (for_in heldout (heldout_body rounds X y) []
                (classifier_start seed nc w2)) as [w2' [yy' | e']];
    cbn [fst snd] in Hres, Hd1, Hd2 |- *; try discriminate;
    injection Hres as <-; cbn [with_trace classifier_start data] in *;
    rewrite Hd1, Hd2, Hdata; auto.
Qed.

Lemma classifiers_loop_alike cs : forall w1 w2,
  Forall (fun nc => deterministic (snd nc)) cs -> data w1 = data w2 ->
  snd (for_in cs (classifier_body heldout rounds X y seed) tt w1)
  = snd (for_in cs (classifier_body heldout rounds X y seed) tt w2) /\
  data (fst (for_in cs (classifier_body heldout rounds X y seed) tt w1))
  = data (fst (for_in cs (classifier_body heldout rounds X y seed) tt w2)).
Proof.
  induction cs as [| nc cs IH]; intros w1 w2 Hdet Hdata; simpl.
  - auto.
  - inversion Hdet as [| nc' cs' Hnc Hcs]; subst. unfold bind.
    destruct (classifier_body_alike nc w1 w2 Hnc Hdata) as [Hres Hd].
    destruct (classifier_body heldout rounds X y seed nc tt w1)
      as [w1' [[] | e]];
      destruct (classifier_body heldout rounds X y seed nc tt w2)
        as [w2' [[] | e']];
      cbn [fst snd] in Hres, Hd |- *; try discriminate.
    + apply IH; assumption.
    + injection Hres as <-. auto.
Qed.

(** C6.  Two executions of the cell on the same dataset, configuration and
    classifiers, all deterministic, started from any two interpreter
    states (different states of the global generator, different leftovers
    in [rng], [clf] and [data], different calls made before), end alike:
    the same figure, curve value for curve value, or the same exception,
    and the same traces in [data]. *)
Theorem sweep_is_reproducible cs w1 w2 :
  Forall (fun nc => deterministic (snd nc)) cs ->
  snd (cell4 heldout rounds X y seed cs w1)
  = snd (cell4 heldout rounds X y seed cs w2) /\
  data (fst (cell4 heldout rounds X y seed cs w1))
  = data (fst (cell4 heldout rounds X y seed cs w2)).
Proof.
  intros Hdet. unfold cell4, bind, reset_data, read_data, ret.
  destruct (@classifiers_loop_alike cs
              (mkWorld (np_random w1) (rng w1) (clf w1) [] (calls w1))
              (mkWorld (np_random w2) (rng w2) (clf w2) [] (calls w2))
              Hdet eq_refl) as [Hres Hd].
  destruct (for_in cs (classifier_body heldout rounds X y seed) tt
              (mkWorld (np_random w1) (rng w1) (clf w1) [] (calls w1)))
    as [w1' [[] | e]];
    destruct (for_in cs (classifier_body heldout rounds X y seed) tt
                (mkWorld (np_random w2) (rng w2) (clf w2) [] (calls w2)))
      as [w2' [[] | e']];
    cbn [fst snd] in Hres, Hd |- *; try discriminate.
  - rewrite Hd. auto.
  - injection Hres as <-. auto.
Qed.

(** ** From the runs back to the loops *)

Lemma round_runs_body i w evs w' res :
  round_runs X y i w evs w' res ->
  forall r acc,
    round_body X y i r acc w
    = (w', match res with
           | Ok e => Ok (acc ++ [e])
           | Raise e => Raise e
           end).
Proof.
  intros H r acc.
  unfold round_body, bind, call_train_test_split, call_fit, call_predict,
    ret, emit.
  destruct H as [g' e Hs | g' sp ent' e Hs Hf
                | g' sp ent' c' e Hs Hf Hp
                | g' sp ent' c' yp Hs Hf Hp]; subst evs;
    rewrite Hs; cbn [rng clf np_random data calls];
    try (rewrite Hf; cbn [rng clf np_random data calls]);
    try rewrite Hp; cbn; rewrite <- ?app_assoc; reflexivity.
Qed.

Lemma rounds_run_loop i rs w evs w' res :
  rounds_run X y i rs w evs w' res ->
  forall acc, for_in rs (round_body X y i) acc w = (w', extend acc res).
Proof.
  induction 1 as [w | r rs w evs w1 e Hr
                 | r rs w evs w1 a evs' w2 res Hr Hrest IH]; intros acc;
    simpl.
  - rewrite app_nil_r. reflexivity.
  - unfold bind. rewrite (round_runs_body Hr). reflexivity.
  - unfold bind. rewrite (round_runs_body Hr), IH.
    destruct res; simpl; [rewrite <- app_assoc |]; reflexivity.
Qed.

Lemma curve_run_loop hs w evs w' res :
  curve_run rounds X y hs w evs w' res ->
  forall acc,
    for_in hs (heldout_body rounds X y) acc w = (w', extend acc res).
Proof.
  induction 1 as [w | i hs w evs w1 e Hr
                 | i hs w evs w1 es evs' w2 res Hr Hrest IH]; intros acc;
    simpl.
  - rewrite app_nil_r. reflexivity.
  - unfold bind, heldout_body at 1, bind, ret.
    rewrite (rounds_run_loop Hr). reflexivity.
  - unfold bind, heldout_body at 1, bind, ret.
    rewrite (rounds_run_loop Hr). simpl. rewrite IH.
    destruct res; simpl; [rewrite <- app_assoc |]; reflexivity.
Qed.

(** ** One classifier among others *)

Lemma Forall2_nth_error_right (A B : Type) (R : A -> B -> Prop) l l' :
  Forall2 R l l' ->
  forall k b, nth_error l' k = Some b ->
              exists a, nth_error l k = Some a /\ R a b.
Proof.
  induction 1 as [| a b l l' Hab _ IH]; intros [| k] b' Hk; simpl in Hk;
    try discriminate.
  - injection Hk as <-. exists a. auto.
  - apply IH, Hk.
Qed.

Lemma nth_error_firstn_some (A : Type) n (l : list A) : forall k a,
  nth_error (firstn n l) k = Some a -> nth_error l k = Some a.
Proof.
  revert l. induction n as [| n IH]; intros [| x l] [| k] a H; simpl in *;
    try discriminate; auto.
Qed.

(** The curve of a deterministic classifier alone is the curve its
    proportions return in any iteration of the sweep. *)
Lemma alone_same_curve nc w1 evs1 w2 yy w0 :
  deterministic (snd nc) ->
  curve_run rounds X y heldout (classifier_start seed nc w1) evs1 w2
    (Ok yy) ->
  snd (cell4 heldout rounds X y seed [nc] w0)
  = Ok (mkFigure [trace_of heldout nc yy] layout).
Proof.
  intros (D & HD & Hfree) Hrun.
  pose proof (curve_run_loop Hrun []) as Hloop. cbn [extend app] in Hloop.
  set (w0' := mkWorld (np_random w0) (rng w0) (clf w0) [] (calls w0)).
  pose proof (heldout_loop_alike Hfree
                (classifier_start_alike D nc w1 w0' HD)) as Hres.
  pose proof (heldout_loop_data (classifier_start seed nc w0')) as Hd.
  rewrite Hloop in Hres. cbn [snd] in Hres.
  unfold cell4, bind, reset_data, read_data, ret. fold w0'.
  cbn [for_in]. unfold bind. rewrite classifier_body_start.
  destruct (for_in heldout (heldout_body rounds X y) []
              (classifier_start seed nc w0')) as [wa [yy' | e]];
    cbn [snd fst] in Hres, Hd; [| discriminate].
  injection Hres as <-. cbn [ret snd with_trace data].
  rewrite Hd. reflexivity.
Qed.

(** A sweep that completes holds a trace for every position of the
    classifier sequence. *)
Lemma completed_sweep_holds_every_trace cs w w' fig :
  cell4 heldout rounds X y seed cs w = (w', Ok fig) ->
  fig_data fig = data w' /\ List.length (data w') = List.length cs.
Proof.
  intros H. destruct (cell4_traces cs w H) as (evs & _ & Hfig & Hall).
  split; [exact Hfig |]. rewrite <- Hfig. symmetry.
  eapply Forall2_length. exact Hall.
Qed.

(** C10.  The curve a deterministic classifier gets in a sweep does not
    depend on the classifiers around it: whatever stands before and after
    it in the classifier sequence, deterministic or not, and from whatever
    interpreter state the sweep started, the trace the sweep holds for it
    is the trace of the sweep run with that classifier alone. *)
Theorem curve_independent_of_others before nc after w w' res tr w0 :
  deterministic (snd nc) ->
  cell4 heldout rounds X y seed (before ++ nc :: after) w = (w', res) ->
  nth_error (data w') (List.length before) = Some tr ->
  snd (cell4 heldout rounds X y seed [nc] w0) = Ok (mkFigure [tr] layout).
Proof.
  intros Hdet H Hk.
  destruct (cell4_runs (before ++ nc :: after) w)
    as (evs & w1 & r & Hrun & Hcell).
  rewrite Hcell in H. injection H as <- <-.
  destruct (sweep_run_traces Hrun) as (traces & Hd & Hall & _).
  cbn [data app] in Hd. rewrite Hd in Hk.
  destruct (Forall2_nth_error_right Hall _ Hk)
    as (nc' & Hnc & wa & evsa & wb & yy & Hcurve & _ & ->).
  apply nth_error_firstn_some in Hnc.
  rewrite nth_error_app2, Nat.sub_diag in Hnc by apply Nat.le_refl.
  injection Hnc as <-. eapply alone_same_curve; eassumption.
Qed.

(** ** What is printed *)

Lemma printed_app (evs evs' : list Event) :
  printed (evs ++ evs') = printed evs ++ printed evs'.
Proof.
  induction evs as [| ev evs IH]; [reflexivity |].
  destruct ev; simpl; rewrite ?IH; reflexivity.
Qed.

Lemma library_calls_print_nothing (evs : list Event) :
  Forall (fun ev => is_library_call ev = true) evs -> printed evs = [].
Proof.
  induction 1 as [| ev evs Hev _ IH]; [reflexivity |].
  destruct ev; simpl in *; try discriminate; exact IH.
Qed.

Lemma sweep_run_printed cs w evs w' res :
  sweep_run heldout rounds X y seed cs w evs w' res ->
  exists k,
    printed evs
    = map (fun nc => ("training " ++ fst nc)%string) (firstn k cs) /\
    (k <= List.length cs)%nat /\
    (List.length (data w') + match res with Ok _ => 0 | Raise _ => 1 end
     = List.length (data w) + k)%nat.
Proof.
  induction 1 as [w | nc cs w evs w1 e Hc
                 | nc cs w evs w1 yy evs' w2 res Hc Hrest
                     (k & IHp & IHk & IHd)].
  - exists 0%nat. simpl. repeat split; lia.
  - exists 1%nat. rewrite printed_app.
    rewrite (library_calls_print_nothing (curve_run_library_calls Hc)).
    destruct (curve_run_frame Hc) as [_ Hd]. cbn [classifier_start data] in Hd.
    rewrite Hd. simpl. repeat split; lia.
  - exists (S k). rewrite !printed_app, IHp.
    rewrite (library_calls_print_nothing (curve_run_library_calls Hc)).
    destruct (curve_run_frame Hc) as [_ Hd].
    cbn [classifier_start with_trace data] in Hd, IHd.
    rewrite length_app, Hd in IHd. simpl in IHd |- *.
    repeat split; lia.
Qed.

(** X2: The cell prints one line per classifier it starts, "training" and the
    classifier's name, in the order of the classifier sequence: a line for
    every classifier when the cell returns; when it raises, a line for each
    classifier that completed and one for the classifier that raised. *)
Theorem stdout_names_classifiers cs w w' res :
  cell4 heldout rounds X y seed cs w = (w', res) ->
  exists evs k,
    calls w' = calls w ++ evs /\
    printed evs
    = map (fun nc => ("training " ++ fst nc)%string) (firstn k cs) /\
    (k <= List.length cs)%nat /\
    k = match res with
        | Ok _ => List.length cs
        | Raise _ => S (List.length (data w'))
        end.
Proof.
  intros H. destruct (cell4_runs cs w) as (evs & w1 & r & Hrun & Hcell).
  rewrite Hcell in H. injection H as <- <-.
  destruct (sweep_run_printed Hrun) as (k & Hp & Hk & Hd).
  destruct (sweep_run_traces Hrun) as (traces & Hdata & _ & Hlen).
  exists evs, k. split; [exact (sweep_run_frame Hrun) |].
  split; [exact Hp |]. split; [exact Hk |].
  cbn [data List.length] in Hd. destruct r as [[] | e].
  - pose proof (Hlen tt eq_refl) as Hl. cbn [data app] in Hdata.
    rewrite Hdata in Hd. lia.
  - lia.
Qed.

(** ** How many calls a sweep makes *)

Lemma round_runs_counts i w evs w' a :
  round_runs X y i w evs w' (Ok a) ->
  List.length (filter is_split evs) = 1%nat /\
  List.length (filter is_fit evs) = 1%nat /\
  List.length (filter is_predict evs) = 1%nat.
Proof.
  intros H. inversion H; subst. repeat split.
Qed.

Lemma rounds_run_counts i rs w evs w' es :
  rounds_run X y i rs w evs w' (Ok es) ->
  List.length (filter is_split evs) = List.length rs /\
  List.length (filter is_fit evs) = List.length rs /\
  List.length (filter is_predict evs) = List.length rs.
Proof.
  intros H. remember (Ok es) as res eqn:Hres. revert es Hres.
  induction H as [w | r rs w evs w1 e Hr
                 | r rs w evs w1 a evs' w2 res Hr Hrest IH];
    intros es Hres.
  - repeat split.
  - discriminate.
  - apply extend_ok in Hres. destruct Hres as (es' & -> & _).
    destruct (IH es' eq_refl) as (I1 & I2 & I3).
    destruct (round_runs_counts Hr) as (R1 & R2 & R3).
    rewrite !filter_app, !length_app, I1, I2, I3, R1, R2, R3.
    repeat split.
Qed.

Lemma curve_run_counts hs w evs w' vs :
  curve_run rounds X y hs w evs w' (Ok vs) ->
  List.length (filter is_split evs)
  = (List.length hs * Z.to_nat rounds)%nat /\
  List.length (filter is_fit evs)
  = (List.length hs * Z.to_nat rounds)%nat /\
  List.length (filter is_predict evs)
  = (List.length hs * Z.to_nat rounds)%nat.
Proof.
  intros H. remember (Ok vs) as res eqn:Hres. revert vs Hres.
  induction H as [w | i hs w evs w1 e Hr
                 | i hs w evs w1 es evs' w2 res Hr Hrest IH];
    intros vs Hres.
  - repeat split.
  - discriminate.
  - apply extend_ok in Hres. destruct Hres as (vs' & -> & _).
    destruct (IH vs' eq_refl) as (I1 & I2 & I3).
    destruct (rounds_run_counts Hr) as (R1 & R2 & R3).
    rewrite range_length in R1, R2, R3.
    rewrite !filter_app, !length_app, I1, I2, I3, R1, R2, R3.
    repeat split.
Qed.

Lemma sweep_run_counts cs w evs w' :
  sweep_run heldout rounds X y seed cs w evs w' (Ok tt) ->
  List.length (filter is_split evs)
  = (List.length cs * (List.length heldout * Z.to_nat rounds))%nat /\
  List.length (filter is_fit evs)
  = (List.length cs * (List.length heldout * Z.to_nat rounds))%nat /\
  List.length (filter is_predict evs)
  = (List.length cs * (List.length heldout * Z.to_nat rounds))%nat.
Proof.
  intros H. remember (Ok tt) as res eqn:Hres.
  induction H as [w | nc cs w evs w1 e Hc
                 | nc cs w evs w1 yy evs' w2 res Hc Hrest IH].
  - repeat split.
  - discriminate.
  - destruct (IH Hres) as (I1 & I2 & I3).
    destruct (curve_run_counts Hc) as (R1 & R2 & R3).
    rewrite !filter_app, !length_app, I1, I2, I3, R1, R2, R3.
    repeat split.
Qed.

(** X3: A sweep that completes has called [train_test_split], [fit] and
    [predict] the same number of times: once per classifier, proportion and
    round. *)
Theorem completed_sweep_call_counts cs w w' fig :
  cell4 heldout rounds X y seed cs w = (w', Ok fig) ->
  exists evs,
    calls w' = calls w ++ evs /\
    List.length (filter is_split evs)
    = (List.length cs * (List.length heldout * Z.to_nat rounds))%nat /\
    List.length (filter is_fit evs)
    = (List.length cs * (List.length heldout * Z.to_nat rounds))%nat /\
    List.length (filter is_predict evs)
    = (List.length cs * (List.length heldout * Z.to_nat rounds))%nat.
Proof.
  intros H. destruct (cell4_runs cs w) as (evs & w1 & res & Hrun & Hcell).
  rewrite Hcell in H. destruct res as [[] | e]; [| discriminate].
  injection H as <- _. exists evs.
  split; [exact (sweep_run_frame Hrun) | exact (sweep_run_counts Hrun)].
Qed.

(** ** The classifier object from fit to fit *)

Lemma threads_app c (evs evs' : list Event) :
  threads c evs -> threads (fitted c evs) evs' -> threads c (evs ++ evs').
Proof.
  revert c. induction evs as [| ev evs IH]; intros c Ht Ht'; [exact Ht' |].
  destruct ev as [line | sd | i g res | c0 Xf yf [c' | e] | c0 Xp res];
    cbn [threads fitted app] in *; try (apply IH; assumption);
    destruct Ht as [-> Ht]; split; try reflexivity; apply IH; assumption.
Qed.

Lemma fitted_app c (evs evs' : list Event) :
  fitted c (evs ++ evs') = fitted (fitted c evs) evs'.
Proof.
  revert c. induction evs as [| ev evs IH]; intros c; [reflexivity |].
  destruct ev as [line | sd | i g res | c0 Xf yf [c' | e] | c0 Xp res];
    cbn [fitted app]; apply IH.
Qed.

Lemma round_runs_threads i w evs w' res :
  round_runs X y i w evs w' res ->
  threads (clf w) evs /\ fitted (clf w) evs = clf w'.
Proof.
  intros H; destruct H; subst evs; cbn; auto.
Qed.

Lemma rounds_run_threads i rs w evs w' res :
  rounds_run X y i rs w evs w' res ->
  threads (clf w) evs /\ fitted (clf w) evs = clf w'.
Proof.
  induction 1 as [w | r rs w evs w1 e Hr
                 | r rs w evs w1 a evs' w2 res Hr Hrest [IHt IHf]].
  - split; [exact I | reflexivity].
  - exact (round_runs_threads Hr).
  - destruct (round_runs_threads Hr) as [Ht Hf]. split.
    + apply threads_app; [exact Ht | rewrite Hf; exact IHt].
    + rewrite fitted_app, Hf. exact IHf.
Qed.

Lemma curve_run_threads hs w evs w' res :
  curve_run rounds X y hs w evs w' res ->
  threads (clf w) evs /\ fitted (clf w) evs = clf w'.
Proof.
  induction 1 as [w | i hs w evs w1 e Hr
                 | i hs w evs w1 es evs' w2 res Hr Hrest [IHt IHf]].
  - split; [exact I | reflexivity].
  - exact (rounds_run_threads Hr).
  - destruct (rounds_run_threads Hr) as [Ht Hf]. split.
    + apply threads_app; [exact Ht | rewrite Hf; exact IHt].
    + rewrite fitted_app, Hf. exact IHf.
Qed.

(** X4: Within the iteration of a classifier the object of the classifier
    sequence is trained in place, round after round: the first [fit] is
    called on the object as listed, every later [fit] on the state the
    previous [fit] left, and every [predict] on the state the [fit] of its
    round returned.  When the iteration completes, the object is left in
    the state its last [fit] returned. *)
Theorem classifier_object_threads_through nc w w' res :
  classifier_body heldout rounds X y seed nc tt w = (w', res) ->
  exists evs,
    calls w' = calls w ++ prelude seed nc ++ evs /\
    threads (snd nc) evs /\
    (res = Ok tt -> clf w' = fitted (snd nc) evs).
Proof.
  intros H.
  destruct (classifier_body_runs nc w) as (evs & w1 & r & Hrun & Hbody).
  rewrite Hbody in H. exists evs.
  destruct (curve_run_frame Hrun) as [Hc _].
  destruct (curve_run_threads Hrun) as [Ht Hf].
  cbn [classifier_start calls clf] in Hc, Ht, Hf.
  destruct r; injection H as <- _; cbn [with_trace calls clf];
    rewrite Hc, <- app_assoc; auto.
Qed.

(** ** The traces of a cell that raises *)

(** A loop that raises has run a prefix of its list to the end, and raises
    in the iteration after that prefix. *)
Lemma for_in_raises (A St : Type) (body : A -> St -> M St) (xs : list A) :
  forall acc w w' e,
    for_in xs body acc w = (w', Raise e) ->
    exists k x acc1 w1,
      nth_error xs k = Some x /\
      for_in (firstn k xs) body acc w = (w1, Ok acc1) /\
      body x acc1 w1 = (w', Raise e).
Proof.
  induction xs as [| x xs IH]; intros acc w w' e H; [discriminate H |].
  cbn [for_in] in H. unfold bind in H.
  destruct (body x acc w) as [w1 [acc1 | e1]] eqn:Hx.
  - destruct (IH acc1 w1 w' e H) as (k & x' & acc2 & w2 & Hk & Hpre & Hb).
    exists (S k), x', acc2, w2. split; [exact Hk |]. split; [| exact Hb].
    cbn [firstn for_in]. unfold bind. rewrite Hx. exact Hpre.
  - injection H as <- <-. exists 0%nat, x, acc, w.
    split; [reflexivity |]. split; [reflexivity | exact Hx].
Qed.

(** X5: When the cell raises, some classifier of the sequence is the one
    whose iteration raised: the sweep over the classifiers before it
    completes, and its iteration, started where that sweep ended, raises
    the exception and leaves the state in which the cell ends.  [data]
    then holds exactly the figure data of that completed sweep: the traces
    of the classifiers before the one that raised, in order, each named
    after its classifier and with one value per proportion. *)
Theorem raise_keeps_completed_traces cs w w' e :
  cell4 heldout rounds X y seed cs w = (w', Raise e) ->
  exists k nc w1 fig1,
    nth_error cs k = Some nc /\
    cell4 heldout rounds X y seed (firstn k cs) w = (w1, Ok fig1) /\
    classifier_body heldout rounds X y seed nc tt w1 = (w', Raise e) /\
    data w' = fig_data fig1 /\
    List.length (data w') = k /\
    map sc_name (data w') = map fst (firstn k cs) /\
    Forall (fun tr => List.length (sc_y tr) = List.length heldout)
      (data w').
Proof.
  intros H. unfold cell4, bind, reset_data in H.
  destruct (for_in cs (classifier_body heldout rounds X y seed) tt
              (mkWorld (np_random w) (rng w) (clf w) [] (calls w)))
    as [w2 [[] | e2]] eqn:Hloop; [discriminate H |].
  injection H as <- <-.
  destruct (for_in_raises _ _ _ _ Hloop) as (k & nc & [] & w1 & Hk & Hpre & Hb).
  assert (Hcell : cell4 heldout rounds X y seed (firstn k cs) w
                  = (w1, Ok (mkFigure (data w1) layout))).
  { unfold cell4, bind, reset_data, read_data, ret. rewrite Hpre.
    reflexivity. }
  exists k, nc, w1, (mkFigure (data w1) layout).
  assert (Hd : data w2 = data w1).
  { rewrite classifier_body_start in Hb.
    pose proof (heldout_loop_data (classifier_start seed nc w1)) as Hd.
    destruct (for_in heldout (heldout_body rounds X y) []
                (classifier_start seed nc w1)) as [w3 [yy | e3]];
      [discriminate Hb |].
    injection Hb as <- _. exact Hd. }
  split; [exact Hk |]. split; [exact Hcell |]. split; [exact Hb |].
  rewrite Hd. cbn [fig_data]. split; [reflexivity |].
  destruct (cell4_traces (firstn k cs) w Hcell) as (evs & _ & _ & Hall).
  cbn [fig_data] in Hall.
  assert (Hlen : List.length (firstn k cs) = k).
  { apply firstn_length_le. apply Nat.lt_le_incl.
    apply nth_error_Some. rewrite Hk. discriminate. }
  split; [rewrite <- (Forall2_length Hall); exact Hlen |].
  clear - Hall.
  induction Hall as [| nc' tr l l' (wa & evsa & wb & yy & Hc & _ & ->) _ IH].
  - split; [reflexivity | constructor].
  - destruct IH as [IHn IHl]. split.
    + cbn [map trace_of sc_name]. rewrite IHn. reflexivity.
    + constructor; [| exact IHl]. cbn [trace_of sc_y]. symmetry.
      eapply Forall2_length. exact (curve_run_values Hc).
Qed.

(** ** The axes of a trace *)

Lemma Forall2_Forall_right (A B : Type) (R : A -> B -> Prop) (P : B -> Prop)
    l l' :
  (forall a b, R a b -> P b) -> Forall2 R l l' -> Forall P l'.
Proof. intros HRP. induction 1; constructor; eauto. Qed.

(** X6: In the figure of a sweep that completes every trace is drawn in mode
    "lines" over the training proportions, 1 minus each held-out proportion
    in the order of the proportion sequence, and has as many abscissas as
    ordinates; the axes carry the two titles of the layout. *)
Theorem traces_over_training_proportion cs w w' fig :
  cell4 heldout rounds X y seed cs w = (w', Ok fig) ->
  Forall (fun tr =>
            sc_x tr = map (fun h => 1 - h) heldout /\
            List.length (sc_x tr) = List.length (sc_y tr) /\
            sc_mode tr = "lines"%string)
         (fig_data fig) /\
  fig_layout fig = mkLayout "Proportion train" "Test Error Rate".
Proof.
  intros H. destruct (cell4_traces cs w H) as (evs & _ & _ & Hall). split.
  - eapply Forall2_Forall_right; [| exact Hall].
    intros nc tr (wa & evsa & wb & yy & Hc & _ & ->).
    split; [reflexivity |]. split; [| reflexivity].
    cbn [trace_of sc_x sc_y]. unfold xx. rewrite length_map.
    eapply Forall2_length. exact (curve_run_values Hc).
  - destruct (cell4_runs cs w) as (evs' & w1 & r & _ & Hcell).
    rewrite Hcell in H. destruct r; [| discriminate].
    injection H as _ <-. reflexivity.
Qed.

(** ** An error rate of zero *)

Lemma count_true_all (bs : list bool) :
  count_occ bool_dec bs true = List.length bs <->
  Forall (fun b => b = true) bs.
Proof.
  induction bs as [| b bs IH]; [split; [constructor | reflexivity] |].
  pose proof (count_occ_bound bool_dec true bs) as Hb.
  destruct b; cbn [count_occ List.length];
    destruct (bool_dec _ _) as [E | E]; try discriminate E;
    try (exfalso; apply E; reflexivity).
  - split.
    + intros H. constructor; [reflexivity |]. apply IH. lia.
    + intros H. inversion H; subst. f_equal. apply IH. assumption.
  - split; [lia |]. intros H. inversion H; subst. discriminate.
Qed.

Lemma equal_all_true yp yt :
  List.length yp = List.length yt ->
  (Forall (fun b => b = true) (equal label_eqb yp yt) <->
   Forall2 (fun p t => label_eqb p t = true) yp yt).
Proof.
  revert yt. induction yp as [| p yp IH]; intros [| t yt] Hlen;
    try discriminate; cbn [equal].
  - split; constructor.
  - injection Hlen as Hlen. split; intros H; inversion H; subst;
      constructor; try assumption; apply (IH yt Hlen); assumption.
Qed.

(** X7: The error rate of a round is 0 exactly when every predicted label
    matches the true label of its test row ([predict] returning one label
    per row, on a test set that is not empty). *)
Theorem zero_error_iff_all_match yp yt :
  List.length yp = List.length yt -> yt <> [] ->
  (feq (error_rate yp yt) (Num 0) <->
   Forall2 (fun p t => label_eqb p t = true) yp yt).
Proof.
  intros Hlen Hne. rewrite <- (equal_all_true yp yt Hlen).
  rewrite <- count_true_all.
  pose proof (equal_length yp yt Hlen) as Hel. unfold error_rate.
  destruct (equal label_eqb yp yt) as [| b bs] eqn:He.
  { destruct yt; [congruence | discriminate]. }
  unfold mean, sum. destruct (sum_of_bools (b :: bs) 0) as (s & Hs & Heq).
  cbn [map] in Hs |- *. rewrite Hs. cbn [sub feq]. unfold size.
  cbn [List.length]. rewrite length_map.
  set (c := count_occ bool_dec (b :: bs) true) in *.
  set (n := S (List.length bs)).
  assert (Hn : ~ inject_Z (Z.of_nat n) == 0).
  { change 0 with (inject_Z 0). rewrite inject_Z_injective. unfold n. lia. }
  rewrite Qplus_0_l in Heq. split.
  - intros H.
    assert (H1 : s / inject_Z (Z.of_nat n) == 1).
    { set (t := s / inject_Z (Z.of_nat n)) in *. lra. }
    assert (H2 : s == inject_Z (Z.of_nat n)).
    { rewrite <- (Qmult_div_r s _ Hn), H1. ring. }
    rewrite Heq, inject_Z_injective in H2. apply Nat2Z.inj. exact H2.
  - intros H. rewrite Heq, H. fold n. field. exact Hn.
Qed.

End Sweep.

End Properties.

(** * The properties on concrete runs *)

(** The small library keeps to the contract at the proportions 1/2 and 1/4
    of the ten samples: a split has five, respectively three, test rows with
    a label each, whatever the state of the generator, and every estimator
    predicts one label per row. *)
Lemma rotate_length (A : Type) (k : nat) (l : list A) :
  List.length (Toy.rotate k l) = List.length l.
Proof.
  unfold Toy.rotate. rewrite length_app, length_skipn, length_firstn.
  destruct l as [| a l]; [cbn [List.length]; lia |].
  pose proof (Nat.mod_upper_bound k (List.length (a :: l))) as Hk.
  cbn [List.length] in *. lia.
Qed.

Lemma toy_split_has_test_rows p g g' sp :
  In p [1 # 2; 1 # 4] ->
  @train_test_split Toy.lib Toy.X10 Toy.y10 p g = (g', Ok sp) ->
  y_test sp <> [] /\ List.length (X_test sp) = List.length (y_test sp).
Proof.
  intros Hin H. cbn [train_test_split Toy.lib] in H. unfold Toy.split in H.
  assert (Hn : Toy.n_test p (List.length Toy.y10) = 5%nat
               \/ Toy.n_test p (List.length Toy.y10) = 3%nat).
  { destruct Hin as [<- | [<- | []]]; [left | right]; reflexivity. }
  assert (Hq : Qle_bool 1 p = false).
  { destruct Hin as [<- | [<- | []]]; reflexivity. }
  rewrite Hq in H. injection H as _ <-. cbn [y_test X_test].
  assert (Hl : forall n, (n = 5 \/ n = 3)%nat ->
            List.length (firstn n (Toy.rotate (Z.to_nat g) Toy.y10)) = n /\
            List.length (firstn n (Toy.rotate (Z.to_nat g) Toy.X10)) = n).
  { intros n Hn'. rewrite !length_firstn, !rotate_length.
    cbn [List.length Toy.y10 Toy.X10]. lia. }
  destruct (Hl _ Hn) as [Hy HX].
  change (List.length Toy.y10) with 10%nat in Hn, Hy, HX.
  split; [| exact (eq_trans HX (eq_sym Hy))].
  intros Hnil.
  change (firstn (Toy.n_test p 10) (Toy.rotate (Z.to_nat g) Toy.y10) = [])
    in Hnil.
  rewrite Hnil in Hy. cbn [List.length] in Hy.
  destruct Hn as [Hn | Hn]; rewrite Hn in Hy; discriminate Hy.
Qed.

Lemma toy_predict_one_label_per_row c Xte yp :
  @predict Toy.lib c Xte = Ok yp -> List.length yp = List.length Xte.
Proof.
  cbn [predict Toy.lib]. unfold Toy.toy_predict.
  destruct c; intros H; try discriminate H; injection H as <-;
    apply length_map.
Qed.

(** The shape of the curves on a run of two classifiers, two proportions and
    two rounds: its four curve values lie in [0,1]. *)
Lemma sweep_curve_shape_witness :
  @cell4 Toy.lib [1 # 2; 1 # 4] 2 Toy.X10 Toy.y10 seed_nb Toy.cs2 Toy.w0
  = (Toy.w2, Ok Toy.fig2) /\
  calls Toy.w2 = calls Toy.w0 ++ calls Toy.w2 /\
  (0 < 2)%Z /\
  (forall p g g' sp,
      In p [1 # 2; 1 # 4] ->
      @train_test_split Toy.lib Toy.X10 Toy.y10 p g = (g', Ok sp) ->
      y_test sp <> [] /\
      List.length (X_test sp) = List.length (y_test sp)) /\
  (forall c Xte yp,
      @predict Toy.lib c Xte = Ok yp ->
      List.length yp = List.length Xte) /\
  map sc_y (fig_data Toy.fig2)
  = [[Num (30 # 50); Num (12 # 18)]; [Num (20 # 50); Num (6 # 18)]] /\
  map (@observations Toy.lib) (iterations (calls Toy.w2))
  = [[(1 # 2, Num (3 # 5)); (1 # 2, Num (3 # 5));
      (1 # 4, Num (2 # 3)); (1 # 4, Num (2 # 3))];
     [(1 # 2, Num (2 # 5)); (1 # 2, Num (2 # 5));
      (1 # 4, Num (1 # 3)); (1 # 4, Num (1 # 3))]] /\
  Forall2 (fun nc tr =>
             sc_name tr = fst nc /\
             List.length (sc_y tr) = List.length [1 # 2; 1 # 4] /\
             Forall in_unit (sc_y tr))
          Toy.cs2 (fig_data Toy.fig2) /\
  List.length (iterations (calls Toy.w2)) = List.length Toy.cs2 /\
  Forall2 (fun nctr it =>
             firstn 2 it = @prelude Toy.lib seed_nb (fst nctr) /\
             Forall2 (fun p bv =>
                        fst bv <> [] /\
                        Forall (fun o => fst o = p) (fst bv) /\
                        snd bv = mean (map snd (fst bv)))
               [1 # 2; 1 # 4]
               (combine (groups (Z.to_nat 2) (List.length [1 # 2; 1 # 4])
                           (@observations Toy.lib it))
                  (sc_y (snd nctr))))
    (combine Toy.cs2 (fig_data Toy.fig2)) (iterations (calls Toy.w2)).
Proof.
  assert (H1 : @cell4 Toy.lib [1 # 2; 1 # 4] 2 Toy.X10 Toy.y10 seed_nb
                 Toy.cs2 Toy.w0
               = (Toy.w2, Ok Toy.fig2)) by reflexivity.
  assert (H2 : calls Toy.w2 = calls Toy.w0 ++ calls Toy.w2) by reflexivity.
  assert (H3 : (0 < 2)%Z) by lia.
  split; [exact H1 |]. split; [exact H2 |]. split; [exact H3 |].
  split; [exact toy_split_has_test_rows |].
  split; [exact toy_predict_one_label_per_row |].
  split; [reflexivity |]. split; [reflexivity |].
  exact (@sweep_curve_shape Toy.lib [1 # 2; 1 # 4] 2%Z Toy.X10 Toy.y10
           seed_nb Toy.cs2 Toy.w0 Toy.w2 Toy.fig2 (calls Toy.w2)
           H1 H2 H3 toy_split_has_test_rows toy_predict_one_label_per_row).
Defined.

(** Two rounds per proportion on the uneven labels.  The rounds of the
    majority rule at test size 1/5 observe the error rates 1/2 and 1, and
    the curve holds their mean 3/4; those of the coin at test size 1/2
    observe 3/5 and 2/5, and the curve holds 1/2.  With one round per
    proportion every curve value is the error rate of that round. *)
Lemma curve_value_mean_of_rounds_witness :
  @cell4 Toy.lib [1 # 2; 1 # 5] 2 Toy.X10 Toy.y_uneven seed_nb Toy.cs2 Toy.w0
  = (Toy.w_uneven, Ok Toy.fig_uneven) /\
  calls Toy.w_uneven = calls Toy.w0 ++ calls Toy.w_uneven /\
  map (@observations Toy.lib) (iterations (calls Toy.w_uneven))
  = [[(1 # 2, Num (3 # 5)); (1 # 2, Num (3 # 5));
      (1 # 5, Num (1 # 2)); (1 # 5, Num (2 # 2))];
     [(1 # 2, Num (3 # 5)); (1 # 2, Num (2 # 5));
      (1 # 5, Num (1 # 2)); (1 # 5, Num (0 # 2))]] /\
  map sc_y (fig_data Toy.fig_uneven)
  = [[Num (30 # 50); Num (6 # 8)]; [Num (25 # 50); Num (2 # 8)]] /\
  (List.length (fig_data Toy.fig_uneven) = List.length Toy.cs2 /\
   List.length (iterations (calls Toy.w_uneven)) = List.length Toy.cs2 /\
   Forall2 (fun nctr it =>
              firstn 2 it = @prelude Toy.lib seed_nb (fst nctr) /\
              sc_name (snd nctr) = fst (fst nctr) /\
              List.length (sc_y (snd nctr)) = List.length [1 # 2; 1 # 5] /\
              @observations Toy.lib it
              = concat (groups (Z.to_nat 2) (List.length [1 # 2; 1 # 5])
                          (@observations Toy.lib it)) /\
              Forall2 (fun p bv =>
                         Z.of_nat (List.length (fst bv)) = Z.max 0 2 /\
                         Forall (fun o => fst o = p) (fst bv) /\
                         snd bv = arithmetic_mean (map snd (fst bv)))
                [1 # 2; 1 # 5]
                (combine (groups (Z.to_nat 2) (List.length [1 # 2; 1 # 5])
                            (@observations Toy.lib it))
                   (sc_y (snd nctr))))
     (combine Toy.cs2 (fig_data Toy.fig_uneven))
     (iterations (calls Toy.w_uneven))) /\
  @cell4 Toy.lib [1 # 2; 1 # 4] 1 Toy.X10 Toy.y10 seed_nb Toy.cs2 Toy.w0
  = (Toy.w_single, Ok Toy.fig_single) /\
  calls Toy.w_single = calls Toy.w0 ++ calls Toy.w_single /\
  Forall2 (fun nctr it =>
             Forall2 (fun p bv =>
                        exists o, fst bv = [o] /\ feq (snd bv) (snd o))
               [1 # 2; 1 # 4]
               (combine (groups (Z.to_nat 1) (List.length [1 # 2; 1 # 4])
                           (@observations Toy.lib it))
                  (sc_y (snd nctr))))
    (combine Toy.cs2 (fig_data Toy.fig_single))
    (iterations (calls Toy.w_single)).
Proof.
  assert (H : @cell4 Toy.lib [1 # 2; 1 # 5] 2 Toy.X10 Toy.y_uneven seed_nb
                Toy.cs2 Toy.w0
              = (Toy.w_uneven, Ok Toy.fig_uneven)) by reflexivity.
  assert (Hc : calls Toy.w_uneven = calls Toy.w0 ++ calls Toy.w_uneven)
    by reflexivity.
  assert (H1 : @cell4 Toy.lib [1 # 2; 1 # 4] 1 Toy.X10 Toy.y10 seed_nb
                 Toy.cs2 Toy.w0
               = (Toy.w_single, Ok Toy.fig_single)) by reflexivity.
  assert (Hc1 : calls Toy.w_single = calls Toy.w0 ++ calls Toy.w_single)
    by reflexivity.
  destruct (@curve_value_mean_of_rounds Toy.lib [1 # 2; 1 # 5] 2%Z Toy.X10
              Toy.y_uneven seed_nb Toy.cs2 Toy.w0 Toy.w_uneven
              Toy.fig_uneven (calls Toy.w_uneven) H Hc)
    as (Hlf & Hli & Hall).
  destruct (@curve_value_mean_of_rounds Toy.lib [1 # 2; 1 # 4] 1%Z Toy.X10
              Toy.y10 seed_nb Toy.cs2 Toy.w0 Toy.w_single Toy.fig_single
              (calls Toy.w_single) H1 Hc1)
    as (_ & _ & Hone).
  split; [exact H |]. split; [exact Hc |]. split; [reflexivity |].
  split; [reflexivity |]. split; [| split; [exact H1 |]; split; [exact Hc1 |]].
  - split; [exact Hlf |]. split; [exact Hli |].
    eapply Forall2_impl; [| exact Hall].
    intros nctr it (Ha & Hb & Hd & He & Hf).
    split; [exact Ha |]. split; [exact Hb |]. split; [exact Hd |].
    split; [exact He |].
    eapply Forall2_impl; [| exact Hf].
    intros p bv (Hg & Hh & Hi & _). split; [exact Hg |].
    split; [exact Hh | exact Hi].
  - eapply Forall2_impl; [| exact Hone].
    intros nctr it (_ & _ & _ & _ & Hf).
    eapply Forall2_impl; [| exact Hf].
    intros p bv (_ & _ & _ & Hj). exact (Hj eq_refl).
Defined.

(** One round at test size 1/2 on the ten samples: the majority rule
    predicts [false] for the five test rows, two of which are [false]. *)
Lemma round_error_rate_witness :
  @round_body Toy.lib Toy.X10 Toy.y10 (1 # 2) 0 [] Toy.w_start
  = (Toy.w_round, Ok [Num (3 # 5)]) /\
  @train_test_split Toy.lib Toy.X10 Toy.y10 (1 # 2) (rng Toy.w_start)
  = (43%Z, Ok Toy.sp_round) /\
  @fit Toy.lib (clf Toy.w_start) (X_train Toy.sp_round)
    (y_train Toy.sp_round) (np_random Toy.w_start)
  = (0%nat, Ok (Toy.Majority false)) /\
  @predict Toy.lib (Toy.Majority false) (X_test Toy.sp_round)
  = Ok [false; false; false; false; false] /\
  List.length [false; false; false; false; false]
  = List.length (y_test Toy.sp_round) /\
  exists e,
    [Num (3 # 5)] = [] ++ [e] /\
    feq e (sub (Num 1)
             (@fraction_matching Toy.lib [false; false; false; false; false]
                (y_test Toy.sp_round))).
Proof.
  repeat (split; [reflexivity |]).
  apply (@round_error_rate Toy.lib Toy.X10 Toy.y10 (1 # 2) 0%Z []
           Toy.w_start Toy.w_round [Num (3 # 5)] 43%Z Toy.sp_round 0%nat
           (Toy.Majority false) [false; false; false; false; false]);
    reflexivity.
Defined.

(** The iteration of the majority rule: four splits, all of the one
    sequence that starts at the seed. *)
Lemma classifier_splits_one_sequence_witness :
  @classifier_body Toy.lib [1 # 2; 1 # 4] 2 Toy.X10 Toy.y10 seed_nb
    ("majority"%string, Toy.Majority false) tt Toy.w0
  = (Toy.w_body, Ok tt) /\
  exists evs,
    calls Toy.w_body
    = calls Toy.w0
      ++ @prelude Toy.lib seed_nb ("majority"%string, Toy.Majority false)
      ++ evs /\
    filter is_reseed
      (@prelude Toy.lib seed_nb ("majority"%string, Toy.Majority false))
    = [EvRandomState seed_nb] /\
    Forall (fun ev => is_reseed ev = false) evs /\
    (forall n ev,
       nth_error (splits evs) n = Some ev ->
       nth_error
         (@draws Toy.lib Toy.X10 Toy.y10 (RandomState_new seed_nb)
            (schedule [1 # 2; 1 # 4] 2)) n = Some ev) /\
    splits evs
    = @draws Toy.lib Toy.X10 Toy.y10 (RandomState_new seed_nb)
        (schedule [1 # 2; 1 # 4] 2).
Proof.
  assert (H : @classifier_body Toy.lib [1 # 2; 1 # 4] 2 Toy.X10 Toy.y10
                seed_nb ("majority"%string, Toy.Majority false) tt Toy.w0
              = (Toy.w_body, Ok tt)) by reflexivity.
  split; [exact H |].
  destruct (@classifier_splits_one_sequence Toy.lib [1 # 2; 1 # 4] 2%Z
              Toy.X10 Toy.y10 seed_nb
              ("majority"%string, Toy.Majority false) Toy.w0 Toy.w_body
              (Ok tt) H)
    as (evs & Hcalls & Hseed & Hquiet & Hnth & Hall).
  exists evs. split; [exact Hcalls |]. split; [exact Hseed |].
  split; [exact Hquiet |]. split; [exact Hnth | exact (Hall eq_refl)].
Defined.

(** Two classifiers: the sequence of four splits, twice. *)
Lemma sweep_restarts_split_sequence_witness :
  @cell4 Toy.lib [1 # 2; 1 # 4] 2 Toy.X10 Toy.y10 seed_nb Toy.cs2 Toy.w0
  = (Toy.w2, Ok Toy.fig2) /\
  exists evs,
    calls Toy.w2 = calls Toy.w0 ++ evs /\
    filter is_reseed evs = map (fun _ => EvRandomState seed_nb) Toy.cs2 /\
    splits evs
    = concat (map (fun _ =>
                     @draws Toy.lib Toy.X10 Toy.y10 (RandomState_new seed_nb)
                       (schedule [1 # 2; 1 # 4] 2)) Toy.cs2).
Proof.
  assert (H : @cell4 Toy.lib [1 # 2; 1 # 4] 2 Toy.X10 Toy.y10 seed_nb
                 Toy.cs2 Toy.w0
              = (Toy.w2, Ok Toy.fig2)) by reflexivity.
  split; [exact H |].
  exact (@sweep_restarts_split_sequence Toy.lib [1 # 2; 1 # 4] 2%Z Toy.X10
           Toy.y10 seed_nb Toy.cs2 Toy.w0 Toy.w2 Toy.fig2 H).
Defined.

(** The second classifier does not continue the sequence of the first: its
    splits are drawn from the generator states 42, 43, 44, 45 again, where
    one sequence threaded across the sweep would draw from 46, 47, 48,
    49. *)
Lemma sweep_reseeds_per_classifier :
  @cell4 Toy.lib [1 # 2; 1 # 4] 2 Toy.X10 Toy.y10 seed_nb Toy.cs2 Toy.w0
  = (Toy.w2, Ok Toy.fig2) /\
  filter is_reseed (calls Toy.w2)
  = [EvRandomState seed_nb; EvRandomState seed_nb] /\
  map split_generator (splits (calls Toy.w2))
  = [Some 42; Some 43; Some 44; Some 45;
     Some 42; Some 43; Some 44; Some 45]%Z /\
  map split_generator
    (@draws Toy.lib Toy.X10 Toy.y10 (RandomState_new seed_nb)
       (schedule [1 # 2; 1 # 4] 2 ++ schedule [1 # 2; 1 # 4] 2))
  = [Some 42; Some 43; Some 44; Some 45;
     Some 46; Some 47; Some 48; Some 49]%Z /\
  splits (calls Toy.w2)
  <> @draws Toy.lib Toy.X10 Toy.y10 (RandomState_new seed_nb)
       (schedule [1 # 2; 1 # 4] 2 ++ schedule [1 # 2; 1 # 4] 2).
Proof.
  split; [reflexivity |]. split; [reflexivity |].
  split; [reflexivity |]. split; [reflexivity |].
  intros H. apply (f_equal (fun l => nth 4 (map split_generator l) None)) in H.
  discriminate H.
Qed.

(** The majority rule is deterministic: its [fit] ignores the global
    generator. *)
Lemma majority_deterministic g : @deterministic Toy.lib (Toy.Majority g).
Proof.
  exists (fun c => exists g', c = Toy.Majority g'). split; [eauto |].
  intros c Xtr ytr e1 e2 [g' ->]. simpl. split; [reflexivity |].
  intros c' H. injection H as <-. eauto.
Qed.

(** The majority rule from two different interpreter states. *)
Lemma sweep_is_reproducible_witness :
  Forall (fun nc => @deterministic Toy.lib (snd nc)) Toy.cs1 /\
  snd (@cell4 Toy.lib [1 # 2; 1 # 4] 2 Toy.X10 Toy.y10 seed_nb Toy.cs1
         Toy.w0)
  = snd (@cell4 Toy.lib [1 # 2; 1 # 4] 2 Toy.X10 Toy.y10 seed_nb Toy.cs1
           Toy.w0') /\
  data (fst (@cell4 Toy.lib [1 # 2; 1 # 4] 2 Toy.X10 Toy.y10 seed_nb
               Toy.cs1 Toy.w0))
  = data (fst (@cell4 Toy.lib [1 # 2; 1 # 4] 2 Toy.X10 Toy.y10 seed_nb
                 Toy.cs1 Toy.w0')).
Proof.
  assert (H : Forall (fun nc => @deterministic Toy.lib (snd nc)) Toy.cs1).
  { repeat constructor. apply majority_deterministic. }
  split; [exact H |].
  exact (@sweep_is_reproducible Toy.lib [1 # 2; 1 # 4] 2%Z Toy.X10 Toy.y10
           seed_nb Toy.cs1 Toy.w0 Toy.w0' H).
Defined.

(** [rounds = 0]: a figure with one NaN, two calls, no split, no fit. *)
Lemma no_rounds_no_error_witness :
  ([1 # 2] = [] \/ (0 <= 0)%Z) /\
  @cell4 Toy.lib [1 # 2] 0 Toy.X10 Toy.y10 seed_nb Toy.cs1 Toy.w0
  = (Toy.w_no_round, Ok Toy.fig_no_round) /\
  @Ok (@Exn Toy.lib) Figure Toy.fig_no_round
  = Ok (mkFigure
          (map (fun nc : string * @Estimator Toy.lib =>
                  trace_of [1 # 2] nc (map (fun _ => NaN) [1 # 2])) Toy.cs1)
          layout) /\
  calls Toy.w_no_round
  = calls Toy.w0 ++ flat_map (@prelude Toy.lib seed_nb) Toy.cs1 /\
  Forall (fun ev => is_library_call ev = false)
    (flat_map (@prelude Toy.lib seed_nb) Toy.cs1).
Proof.
  assert (Hidle : [1 # 2] = [] \/ (0 <= 0)%Z) by (right; lia).
  assert (H : @cell4 Toy.lib [1 # 2] 0 Toy.X10 Toy.y10 seed_nb Toy.cs1
                Toy.w0
              = (Toy.w_no_round, Ok Toy.fig_no_round)) by reflexivity.
  split; [exact Hidle |]. split; [exact H |].
  exact (@no_rounds_no_error Toy.lib [1 # 2] 0%Z Toy.X10 Toy.y10 seed_nb
           Toy.cs1 Toy.w0 Toy.w_no_round (Ok Toy.fig_no_round) Hidle H).
Defined.

(** Neither an empty proportion list nor a negative [rounds] is reported:
    the cell returns a figure, with an empty curve and with a NaN. *)
Lemma no_configuration_error :
  snd (@cell4 Toy.lib [] 20 Toy.X10 Toy.y10 seed_nb Toy.cs1 Toy.w0)
  = Ok Toy.fig_no_proportion /\
  map sc_y (fig_data Toy.fig_no_proportion) = [[]] /\
  snd (@cell4 Toy.lib [1 # 2] (-1) Toy.X10 Toy.y10 seed_nb Toy.cs1 Toy.w0)
  = Ok Toy.fig_negative /\
  map sc_y (fig_data Toy.fig_negative) = [[NaN]].
Proof. repeat split; reflexivity. Qed.

(** Test size 0: the split has no test row and the proportion keeps NaN. *)
Lemma empty_test_set_records_nan_witness :
  @heldout_body Toy.lib 1 Toy.X10 Toy.y10 0 [] Toy.w_start
  = (Toy.w_body_no_test, Ok [NaN]) /\
  calls Toy.w_body_no_test
  = calls Toy.w_start ++ calls Toy.w_body_no_test /\
  In (@EvSplit Toy.lib 0 42%Z (Ok Toy.sp_no_test))
     (calls Toy.w_body_no_test) /\
  y_test Toy.sp_no_test = [] /\
  [NaN] = [] ++ [NaN].
Proof.
  assert (H1 : @heldout_body Toy.lib 1 Toy.X10 Toy.y10 0 [] Toy.w_start
               = (Toy.w_body_no_test, Ok [NaN])) by reflexivity.
  assert (H2 : calls Toy.w_body_no_test
               = calls Toy.w_start ++ calls Toy.w_body_no_test)
    by reflexivity.
  assert (H3 : In (@EvSplit Toy.lib 0 42%Z (Ok Toy.sp_no_test))
                  (calls Toy.w_body_no_test)) by (left; reflexivity).
  assert (H4 : y_test Toy.sp_no_test = []) by reflexivity.
  split; [exact H1 |]. split; [exact H2 |]. split; [exact H3 |].
  split; [exact H4 |].
  exact (@empty_test_set_records_nan Toy.lib 1%Z Toy.X10 Toy.y10 0 []
           Toy.w_start Toy.w_body_no_test [NaN] (calls Toy.w_body_no_test)
           42%Z Toy.sp_no_test H1 H2 H3 H4).
Defined.

(** Test size 0.999 on ten samples: the split leaves no training sample,
    the majority rule is fitted on nothing, and the cell returns an error
    rate all the same.  Test size 0: the split leaves no test sample and
    the cell returns a curve with NaN.  No error in either case. *)
Lemma degenerate_splits_go_unnoticed :
  @cell4 Toy.lib [999 # 1000] 1 Toy.X10 Toy.y10 seed_nb Toy.cs1 Toy.w0
  = (Toy.w_no_train, Ok Toy.fig_no_train) /\
  map (fun ev => match ev with
                 | EvSplit _ _ (Ok sp) =>
                     Some (List.length (y_train sp), List.length (y_test sp))
                 | _ => None
                 end) (splits (calls Toy.w_no_train))
  = [Some (0, 10)%nat] /\
  map sc_y (fig_data Toy.fig_no_train) = [[Num (5 # 10)]] /\
  @cell4 Toy.lib [0] 1 Toy.X10 Toy.y10 seed_nb Toy.cs1 Toy.w0
  = (Toy.w_no_test, Ok Toy.fig_no_test) /\
  map (fun ev => match ev with
                 | EvSplit _ _ (Ok sp) =>
                     Some (List.length (y_train sp), List.length (y_test sp))
                 | _ => None
                 end) (splits (calls Toy.w_no_test))
  = [Some (10, 0)%nat] /\
  map sc_y (fig_data Toy.fig_no_test) = [[NaN]].
Proof. repeat split; reflexivity. Qed.

(** The fourth [fit] of the classifier named b raises: it is the last call,
    and the cell raises what it raised. *)
Lemma raise_ends_the_sweep_witness :
  @cell4 Toy.lib [1 # 2; 1 # 4] 2 Toy.X10 Toy.y10 seed_nb
    [("b"%string, Toy.Fragile 3)] Toy.w0
  = (Toy.w_b, Raise "fit failed"%string) /\
  calls Toy.w_b
  = calls Toy.w0 ++ Toy.calls_before_b ++ Toy.last_call_b :: [] /\
  raised Toy.last_call_b = Some "fit failed"%string /\
  @nil (@Event Toy.lib) = [] /\
  @Raise (@Exn Toy.lib) Figure "fit failed"%string
  = Raise "fit failed"%string.
Proof.
  assert (H1 : @cell4 Toy.lib [1 # 2; 1 # 4] 2 Toy.X10 Toy.y10 seed_nb
                 [("b"%string, Toy.Fragile 3)] Toy.w0
               = (Toy.w_b, Raise "fit failed"%string)) by reflexivity.
  assert (H2 : calls Toy.w_b
               = calls Toy.w0 ++ Toy.calls_before_b ++ Toy.last_call_b :: [])
    by reflexivity.
  assert (H3 : raised Toy.last_call_b = Some "fit failed"%string)
    by reflexivity.
  split; [exact H1 |]. split; [exact H2 |]. split; [exact H3 |].
  exact (@raise_ends_the_sweep Toy.lib [1 # 2; 1 # 4] 2%Z Toy.X10 Toy.y10
           seed_nb [("b"%string, Toy.Fragile 3)] Toy.w0 Toy.w_b
           (Raise "fit failed"%string) Toy.calls_before_b Toy.last_call_b []
           "fit failed"%string H1 H2 H3).
Defined.

(** Two sweeps fail at different places: classifier "a" at the first round
    of proportion 1/2, classifier "b" at the second round of proportion
    1/4.  The cell raises the same value in both, so nothing read off the
    raised value tells the classifier, the proportion and the round. *)
Lemma raised_value_carries_no_context :
  snd (@cell4 Toy.lib [1 # 2] 1 Toy.X10 Toy.y10 seed_nb
         [("a"%string, Toy.Fragile 0)] Toy.w0)
  = Raise "fit failed"%string /\
  map split_test_size
    (splits (calls (fst (@cell4 Toy.lib [1 # 2] 1 Toy.X10 Toy.y10 seed_nb
                           [("a"%string, Toy.Fragile 0)] Toy.w0))))
  = [Some (1 # 2)] /\
  snd (@cell4 Toy.lib [1 # 2; 1 # 4] 2 Toy.X10 Toy.y10 seed_nb
         [("b"%string, Toy.Fragile 3)] Toy.w0)
  = Raise "fit failed"%string /\
  map split_test_size
    (splits (calls (fst (@cell4 Toy.lib [1 # 2; 1 # 4] 2 Toy.X10 Toy.y10
                           seed_nb [("b"%string, Toy.Fragile 3)] Toy.w0))))
  = [Some (1 # 2); Some (1 # 2); Some (1 # 4); Some (1 # 4)] /\
  ~ exists context : PyResult (@Exn Toy.lib) Figure -> string * Q * Z,
      context (snd (@cell4 Toy.lib [1 # 2] 1 Toy.X10 Toy.y10 seed_nb
                      [("a"%string, Toy.Fragile 0)] Toy.w0))
      = ("a"%string, 1 # 2, 0%Z) /\
      context (snd (@cell4 Toy.lib [1 # 2; 1 # 4] 2 Toy.X10 Toy.y10 seed_nb
                      [("b"%string, Toy.Fragile 3)] Toy.w0))
      = ("b"%string, 1 # 4, 1%Z).
Proof.
  assert (Ha : snd (@cell4 Toy.lib [1 # 2] 1 Toy.X10 Toy.y10 seed_nb
                      [("a"%string, Toy.Fragile 0)] Toy.w0)
               = Raise "fit failed"%string) by reflexivity.
  assert (Hb : snd (@cell4 Toy.lib [1 # 2; 1 # 4] 2 Toy.X10 Toy.y10 seed_nb
                      [("b"%string, Toy.Fragile 3)] Toy.w0)
               = Raise "fit failed"%string) by reflexivity.
  split; [exact Ha |]. split; [reflexivity |].
  split; [exact Hb |]. split; [reflexivity |].
  intros (context & Hca & Hcb). rewrite Ha in Hca. rewrite Hb in Hcb.
  rewrite Hca in Hcb. discriminate Hcb.
Qed.

(** The majority rule after a classifier that draws from the global
    generator, from a used interpreter state, and alone from a fresh one:
    the same trace. *)
Lemma curve_independent_of_others_witness :
  @deterministic Toy.lib (snd ("majority"%string, Toy.Majority false)) /\
  @cell4 Toy.lib [1 # 2; 1 # 4] 2 Toy.X10 Toy.y10 seed_nb
    ([("coin"%string, Toy.Coin false)]
     ++ ("majority"%string, Toy.Majority false) :: []) Toy.w0'
  = (Toy.w_cm, Ok Toy.fig_cm) /\
  nth_error (data Toy.w_cm) (List.length [("coin"%string, Toy.Coin false)])
  = Some Toy.trace_majority /\
  snd (@cell4 Toy.lib [1 # 2; 1 # 4] 2 Toy.X10 Toy.y10 seed_nb
         [("majority"%string, Toy.Majority false)] Toy.w0)
  = Ok (mkFigure [Toy.trace_majority] layout).
Proof.
  assert (Hdet : @deterministic Toy.lib
                   (snd ("majority"%string, Toy.Majority false)))
    by apply majority_deterministic.
  assert (H : @cell4 Toy.lib [1 # 2; 1 # 4] 2 Toy.X10 Toy.y10 seed_nb
                ([("coin"%string, Toy.Coin false)]
                 ++ ("majority"%string, Toy.Majority false) :: []) Toy.w0'
              = (Toy.w_cm, Ok Toy.fig_cm)) by reflexivity.
  assert (Hk : nth_error (data Toy.w_cm)
                 (List.length [("coin"%string, Toy.Coin false)])
               = Some Toy.trace_majority) by reflexivity.
  split; [exact Hdet |]. split; [exact H |]. split; [exact Hk |].
  exact (@curve_independent_of_others Toy.lib [1 # 2; 1 # 4] 2%Z Toy.X10
           Toy.y10 seed_nb [("coin"%string, Toy.Coin false)]
           ("majority"%string, Toy.Majority false) [] Toy.w0' Toy.w_cm
           (Ok Toy.fig_cm) Toy.trace_majority Toy.w0 Hdet H Hk).
Defined.

(** The notebook's own configuration, five proportions and twenty rounds,
    draws a hundred splits per classifier. *)
Lemma notebook_schedule_length :
  List.length (schedule heldout_nb rounds_nb) = 100%nat.
Proof. reflexivity. Qed.

(** The majority rule completes and the classifier named b raises: two
    lines are printed, one trace is held. *)
Lemma stdout_names_classifiers_witness :
  @cell4 Toy.lib [1 # 2; 1 # 4] 2 Toy.X10 Toy.y10 seed_nb
    [("majority"%string, Toy.Majority false); ("b"%string, Toy.Fragile 3)]
    Toy.w0
  = (Toy.w_mb, Raise "fit failed"%string) /\
  printed (calls Toy.w_mb) = ["training majority"%string; "training b"%string] /\
  exists evs k,
    calls Toy.w_mb = calls Toy.w0 ++ evs /\
    printed evs
    = map (fun nc => ("training " ++ fst nc)%string)
        (firstn k [("majority"%string, Toy.Majority false);
                   ("b"%string, Toy.Fragile 3)]) /\
    (k <= List.length [("majority"%string, Toy.Majority false);
                       ("b"%string, Toy.Fragile 3)])%nat /\
    k = S (List.length (data Toy.w_mb)).
Proof.
  assert (H : @cell4 Toy.lib [1 # 2; 1 # 4] 2 Toy.X10 Toy.y10 seed_nb
                [("majority"%string, Toy.Majority false);
                 ("b"%string, Toy.Fragile 3)] Toy.w0
              = (Toy.w_mb, Raise "fit failed"%string)) by reflexivity.
  split; [exact H |]. split; [reflexivity |].
  exact (@stdout_names_classifiers Toy.lib [1 # 2; 1 # 4] 2%Z Toy.X10
           Toy.y10 seed_nb
           [("majority"%string, Toy.Majority false);
            ("b"%string, Toy.Fragile 3)]
           Toy.w0 Toy.w_mb (Raise "fit failed"%string) H).
Defined.

(** Two classifiers, two proportions, two rounds: eight calls of each
    kind. *)
Lemma completed_sweep_call_counts_witness :
  @cell4 Toy.lib [1 # 2; 1 # 4] 2 Toy.X10 Toy.y10 seed_nb Toy.cs2 Toy.w0
  = (Toy.w2, Ok Toy.fig2) /\
  exists evs,
    calls Toy.w2 = calls Toy.w0 ++ evs /\
    List.length (filter is_split evs)
    = (List.length Toy.cs2 * (List.length [1 # 2; 1 # 4] * Z.to_nat 2))%nat /\
    List.length (filter is_fit evs)
    = (List.length Toy.cs2 * (List.length [1 # 2; 1 # 4] * Z.to_nat 2))%nat /\
    List.length (filter is_predict evs)
    = (List.length Toy.cs2 * (List.length [1 # 2; 1 # 4] * Z.to_nat 2))%nat.
Proof.
  assert (H : @cell4 Toy.lib [1 # 2; 1 # 4] 2 Toy.X10 Toy.y10 seed_nb
                Toy.cs2 Toy.w0
              = (Toy.w2, Ok Toy.fig2)) by reflexivity.
  split; [exact H |].
  exact (@completed_sweep_call_counts Toy.lib [1 # 2; 1 # 4] 2%Z Toy.X10
           Toy.y10 seed_nb Toy.cs2 Toy.w0 Toy.w2 Toy.fig2 H).
Defined.

(** The iteration of the majority rule: its four rounds train the one
    object. *)
Lemma classifier_object_threads_through_witness :
  @classifier_body Toy.lib [1 # 2; 1 # 4] 2 Toy.X10 Toy.y10 seed_nb
    ("majority"%string, Toy.Majority false) tt Toy.w0
  = (Toy.w_body, Ok tt) /\
  exists evs,
    calls Toy.w_body
    = calls Toy.w0
      ++ @prelude Toy.lib seed_nb ("majority"%string, Toy.Majority false)
      ++ evs /\
    @threads Toy.lib (snd ("majority"%string, Toy.Majority false)) evs /\
    clf Toy.w_body
    = @fitted Toy.lib (snd ("majority"%string, Toy.Majority false)) evs.
Proof.
  assert (H : @classifier_body Toy.lib [1 # 2; 1 # 4] 2 Toy.X10 Toy.y10
                seed_nb ("majority"%string, Toy.Majority false) tt Toy.w0
              = (Toy.w_body, Ok tt)) by reflexivity.
  split; [exact H |].
  destruct (@classifier_object_threads_through Toy.lib [1 # 2; 1 # 4] 2%Z
              Toy.X10 Toy.y10 seed_nb ("majority"%string, Toy.Majority false)
              Toy.w0 Toy.w_body (Ok tt) H)
    as (evs & Hcalls & Hthreads & Hleft).
  exists evs. split; [exact Hcalls |].
  split; [exact Hthreads | exact (Hleft eq_refl)].
Defined.

(** The classifier named b raises after the majority rule completed: the
    trace of the majority rule is held, with its two values. *)
Lemma raise_keeps_completed_traces_witness :
  @cell4 Toy.lib [1 # 2; 1 # 4] 2 Toy.X10 Toy.y10 seed_nb
    [("majority"%string, Toy.Majority false); ("b"%string, Toy.Fragile 3)]
    Toy.w0
  = (Toy.w_mb, Raise "fit failed"%string) /\
  map sc_name (data Toy.w_mb) = ["majority"%string] /\
  exists k nc w1 fig1,
    nth_error [("majority"%string, Toy.Majority false);
               ("b"%string, Toy.Fragile 3)] k = Some nc /\
    @cell4 Toy.lib [1 # 2; 1 # 4] 2 Toy.X10 Toy.y10 seed_nb
      (firstn k [("majority"%string, Toy.Majority false);
                 ("b"%string, Toy.Fragile 3)]) Toy.w0
    = (w1, Ok fig1) /\
    @classifier_body Toy.lib [1 # 2; 1 # 4] 2 Toy.X10 Toy.y10 seed_nb nc tt w1
    = (Toy.w_mb, Raise "fit failed"%string) /\
    data Toy.w_mb = fig_data fig1 /\
    List.length (data Toy.w_mb) = k /\
    map sc_name (data Toy.w_mb)
    = map fst (firstn k [("majority"%string, Toy.Majority false);
                         ("b"%string, Toy.Fragile 3)]) /\
    Forall (fun tr => List.length (sc_y tr) = List.length [1 # 2; 1 # 4])
      (data Toy.w_mb).
Proof.
  assert (H : @cell4 Toy.lib [1 # 2; 1 # 4] 2 Toy.X10 Toy.y10 seed_nb
                [("majority"%string, Toy.Majority false);
                 ("b"%string, Toy.Fragile 3)] Toy.w0
              = (Toy.w_mb, Raise "fit failed"%string)) by reflexivity.
  split; [exact H |]. split; [reflexivity |].
  exact (@raise_keeps_completed_traces Toy.lib [1 # 2; 1 # 4] 2%Z Toy.X10
           Toy.y10 seed_nb
           [("majority"%string, Toy.Majority false);
            ("b"%string, Toy.Fragile 3)]
           Toy.w0 Toy.w_mb "fit failed"%string H).
Defined.

(** Held-out proportions 1/2 and 1/4: both traces are drawn over 1/2 and
    3/4. *)
Lemma traces_over_training_proportion_witness :
  @cell4 Toy.lib [1 # 2; 1 # 4] 2 Toy.X10 Toy.y10 seed_nb Toy.cs2 Toy.w0
  = (Toy.w2, Ok Toy.fig2) /\
  Forall (fun tr =>
            sc_x tr = map (fun h => 1 - h) [1 # 2; 1 # 4] /\
            List.length (sc_x tr) = List.length (sc_y tr) /\
            sc_mode tr = "lines"%string)
         (fig_data Toy.fig2) /\
  fig_layout Toy.fig2 = mkLayout "Proportion train" "Test Error Rate".
Proof.
  assert (H : @cell4 Toy.lib [1 # 2; 1 # 4] 2 Toy.X10 Toy.y10 seed_nb
                Toy.cs2 Toy.w0
              = (Toy.w2, Ok Toy.fig2)) by reflexivity.
  split; [exact H |].
  exact (@traces_over_training_proportion Toy.lib [1 # 2; 1 # 4] 2%Z Toy.X10
           Toy.y10 seed_nb Toy.cs2 Toy.w0 Toy.w2 Toy.fig2 H).
Defined.

(** Two predictions that match the two labels, and two of which one does
    not. *)
Lemma zero_error_iff_all_match_witness :
  List.length [true; false] = List.length [true; false] /\
  [true; false] <> [] /\
  (feq (@error_rate Toy.lib [true; false] [true; false]) (Num 0) <->
   Forall2 (fun p t => @label_eqb Toy.lib p t = true)
     [true; false] [true; false]).
Proof.
  assert (H1 : List.length [true; false] = List.length [true; false])
    by reflexivity.
  assert (H2 : [true; false] <> []) by discriminate.
  split; [exact H1 |]. split; [exact H2 |].
  exact (@zero_error_iff_all_match Toy.lib [true; false] [true; false]
           H1 H2).
Defined.

(** * Properties of the calibration notebook *)

Import Calibration.

(** ** The labels *)

Lemma relabel_closed_form n_samples y :
  relabel n_samples y
  = repeat 0%Z (Nat.min (n_samples / 2) (List.length y))
    ++ repeat 1%Z (List.length y - n_samples / 2).
Proof.
  unfold relabel, assign_from, assign_upto.
  set (k := (n_samples / 2)%nat).
  rewrite length_app, repeat_length, length_skipn.
  replace (Nat.min k (List.length y) + (List.length y - k) - k)%nat
    with (List.length y - k)%nat by lia.
  f_equal. rewrite firstn_app, repeat_length.
  destruct (Nat.le_gt_cases k (List.length y)) as [Hle | Hgt].
  - rewrite Nat.min_l by exact Hle. rewrite Nat.sub_diag. cbn [firstn].
    rewrite app_nil_r. apply firstn_all2. rewrite repeat_length. lia.
  - rewrite Nat.min_r by lia. rewrite skipn_all2 by lia.
    rewrite firstn_nil, app_nil_r. apply firstn_all2.
    rewrite repeat_length. lia.
Qed.

(** X8: After the two slice assignments the array has its length and nothing
    of what [make_blobs] put into it: the label at every position below
    [n_samples // 2] is 0 and the label at every other position is 1. *)
Theorem relabel_overwrites_every_label n_samples y :
  List.length (relabel n_samples y) = List.length y /\
  forall j, (j < List.length y)%nat ->
    nth_error (relabel n_samples y) j
    = Some (if (j <? n_samples / 2)%nat then 0%Z else 1%Z).
Proof.
  rewrite relabel_closed_form. split.
  - rewrite length_app, !repeat_length. lia.
  - intros j Hj. destruct (Nat.ltb_spec j (n_samples / 2)) as [Hlt | Hge].
    + rewrite nth_error_app1 by (rewrite repeat_length; lia).
      apply nth_error_repeat. lia.
    + rewrite nth_error_app2 by (rewrite repeat_length; lia).
      rewrite repeat_length. apply nth_error_repeat. lia.
Qed.

(** ** [np.unique] *)

Lemma insert_unique_In z z' l :
  In z' (insert_unique z l) <-> z' = z \/ In z' l.
Proof.
  induction l as [| x l IH]; simpl.
  - intuition.
  - destruct (Z.ltb_spec z x); [simpl; intuition |].
    destruct (Z.eqb_spec z x); [subst; simpl; intuition |].
    simpl. rewrite IH. intuition.
Qed.

Lemma unique_In z a : In z (unique a) <-> In z a.
Proof.
  induction a as [| x a IH]; simpl; [reflexivity |].
  rewrite insert_unique_In, IH. intuition.
Qed.

Lemma insert_unique_sorted z l :
  StronglySorted Z.lt l -> StronglySorted Z.lt (insert_unique z l).
Proof.
  induction 1 as [| x l Hs IH Hall]; simpl.
  - repeat constructor.
  - destruct (Z.ltb_spec z x).
    + constructor; [constructor; assumption |].
      constructor; [assumption |].
      eapply Forall_impl; [| exact Hall]. intros; lia.
    + destruct (Z.eqb_spec z x); [constructor; assumption |].
      constructor; [exact IH |].
      apply Forall_forall. intros y Hy. apply insert_unique_In in Hy.
      destruct Hy as [-> | Hy]; [lia |].
      rewrite Forall_forall in Hall. auto.
Qed.

Lemma unique_sorted a : StronglySorted Z.lt (unique a).
Proof.
  induction a as [| x a IH]; simpl;
    [constructor | apply insert_unique_sorted, IH].
Qed.

Lemma sorted_NoDup l : StronglySorted Z.lt l -> NoDup l.
Proof.
  induction 1 as [| x l Hs IH Hall]; constructor; [| exact IH].
  intros Hin. rewrite Forall_forall in Hall. specialize (Hall x Hin). lia.
Qed.

Lemma unique_NoDup a : NoDup (unique a).
Proof. apply sorted_NoDup, unique_sorted. Qed.

Lemma relabel_two_classes n_samples y :
  (List.length (unique (relabel n_samples y)) <= 2)%nat.
Proof.
  apply (@NoDup_incl_length Z (unique (relabel n_samples y)) [0; 1]%Z);
    [apply unique_NoDup |].
  intros z Hz. apply (proj1 (unique_In _ _)) in Hz.
  rewrite relabel_closed_form in Hz.
  apply in_app_or in Hz. destruct Hz as [Hz | Hz];
    apply repeat_spec in Hz; subst; simpl; auto.
Qed.

Lemma linspace_length start stop num :
  List.length (linspace start stop num) = num.
Proof.
  destruct num as [| [| num]]; [reflexivity | reflexivity |].
  unfold linspace. rewrite length_map, length_seq. reflexivity.
Qed.

(** ** The training data by class *)

Section ClassPlotProperties.

Variable Color : Type.
Variable rainbow : Q -> Color.
Variable X_tr : list (Q * Q).
Variable y_tr : list Z.
Variable sw_tr : list Q.

Lemma select_same_length (A : Type) (a : list A) (mask : list bool) :
  List.length a = List.length mask -> select a mask = Ok (mask_filter a mask).
Proof. intros H. unfold select. rewrite H, Nat.eqb_refl. reflexivity. Qed.


(** What the loop does when the masks fit the arrays: it appends the traces
    of the labels that get a colour, counts them, and raises at the first
    label that gets none. *)
Lemma class_loop_traces (pairs : list (Z * Color)) :
  List.length X_tr = List.length y_tr ->
  List.length sw_tr = List.length y_tr ->
  forall data_plot i,
    class_loop X_tr y_tr sw_tr pairs data_plot i
    = (data_plot ++ traces_from X_tr y_tr i (map fst pairs),
       (i + List.length (traces_from X_tr y_tr i (map fst pairs)))%nat,
       if (List.length pairs
           <=? List.length (traces_from X_tr y_tr i (map fst pairs)))%nat
       then Ok tt else Raise IndexError).
Proof.
  intros HX Hsw.
  induction pairs as [| [this_y color] pairs IH]; intros data_plot i.
  - cbn. rewrite app_nil_r, Nat.add_0_r. reflexivity.
  - cbn [class_loop map fst traces_from].
    rewrite !select_same_length by (rewrite length_map; assumption).
    destruct (nth_error marker_colors i) as [c |].
    + rewrite IH. cbn [List.length]. rewrite <- app_assoc. cbn [app].
      f_equal. f_equal. lia.
    + cbn. rewrite app_nil_r, Nat.add_0_r. reflexivity.
Qed.

Lemma traces_from_length labels : forall i,
  List.length (traces_from X_tr y_tr i labels)
  = Nat.min (List.length labels) (2 - i).
Proof.
  induction labels as [| l labels IH]; intros i; [reflexivity |].
  cbn [traces_from]. destruct i as [| [| i]]; cbn [nth_error marker_colors].
  - cbn [List.length]. rewrite IH. cbn. lia.
  - cbn [List.length]. rewrite IH. cbn. lia.
  - destruct i; cbn; lia.
Qed.

Lemma traces_from_names labels : forall i,
  map ct_name (traces_from X_tr y_tr i labels)
  = map (fun l => ("Class " ++ str l)%string) (firstn (2 - i) labels).
Proof.
  induction labels as [| l labels IH]; intros i;
    [rewrite firstn_nil; reflexivity |].
  cbn [traces_from]. destruct i as [| [| i]]; cbn [nth_error marker_colors].
  - cbn [map]. rewrite IH. reflexivity.
  - cbn [map]. rewrite IH. reflexivity.
  - destruct i; reflexivity.
Qed.






Lemma combine_fst_same_length (A B : Type) (l : list A) (l' : list B) :
  List.length l = List.length l' -> map fst (combine l l') = l.
Proof.
  revert l'. induction l as [| x l IH]; intros [| x' l'] H;
    try discriminate H; [reflexivity |].
  cbn. f_equal. apply IH. injection H as H. exact H.
Qed.

(** The cell as a whole, when the masks fit the arrays. *)
Lemma class_plot_traces y :
  List.length X_tr = List.length y_tr ->
  List.length sw_tr = List.length y_tr ->
  class_plot rainbow X_tr y_tr sw_tr y
  = (traces_from X_tr y_tr 0 (unique y),
     Nat.min (List.length (unique y)) 2,
     if (List.length (unique y) <=? 2)%nat then Ok tt else Raise IndexError).
Proof.
  intros HX Hsw. unfold class_plot.
  assert (Hlen : List.length (unique y)
                 = List.length
                     (map rainbow (linspace 0 1 (List.length (unique y)))))
    by (rewrite length_map, linspace_length; reflexivity).
  rewrite (class_loop_traces _ HX Hsw).
  rewrite (combine_fst_same_length _ _ Hlen).
  rewrite length_combine, <- Hlen, Nat.min_id, traces_from_length.
  cbn [app Nat.add Nat.sub]. f_equal.
  destruct (Nat.leb_spec (List.length (unique y)) 2);
    destruct (Nat.leb_spec (List.length (unique y))
                (Nat.min (List.length (unique y)) 2));
    first [reflexivity | lia].
Qed.

(** X9: With more than two classes among the labels the cell raises an
    [IndexError] at the third class: [marker_colors] has two entries.  By
    then [data_plot] holds the traces of the two smallest labels and [i]
    is 2. *)
Theorem class_plot_third_class_raises y :
  List.length X_tr = List.length y_tr ->
  List.length sw_tr = List.length y_tr ->
  (2 < List.length (unique y))%nat ->
  exists t1 t2,
    class_plot rainbow X_tr y_tr sw_tr y = ([t1; t2], 2%nat, Raise IndexError) /\
    map ct_name [t1; t2]
    = map (fun l => ("Class " ++ str l)%string) (firstn 2 (unique y)).
Proof.
  intros HX Hsw Hthree. rewrite (class_plot_traces y HX Hsw).
  pose proof (traces_from_length (unique y) 0) as Hlen.
  pose proof (traces_from_names (unique y) 0) as Hnames.
  cbn [Nat.sub] in Hlen, Hnames. rewrite Nat.min_r in Hlen by lia.
  destruct (traces_from X_tr y_tr 0 (unique y)) as [| t1 [| t2 [| t3 ts]]];
    try discriminate Hlen.
  exists t1, t2. split; [| exact Hnames].
  rewrite Nat.min_r by lia.
  destruct (Nat.leb_spec (List.length (unique y)) 2); [lia | reflexivity].
Qed.

(** X10: The labels the cell "Calculations" leaves have at most two classes,
    so on them the cell never runs out of marker colours: whatever the
    training part of the split is, it completes, with one trace per class
    and [i] the number of traces. *)
Theorem relabelled_classes_have_a_colour n_samples y0 :
  List.length X_tr = List.length y_tr ->
  List.length sw_tr = List.length y_tr ->
  exists data_plot,
    class_plot rainbow X_tr y_tr sw_tr (relabel n_samples y0)
    = (data_plot, List.length data_plot, Ok tt) /\
    List.length data_plot = List.length (unique (relabel n_samples y0)) /\
    (List.length data_plot <= 2)%nat.
Proof.
  intros HX Hsw. rewrite (class_plot_traces _ HX Hsw).
  pose proof (relabel_two_classes n_samples y0) as Htwo.
  pose proof (traces_from_length (unique (relabel n_samples y0)) 0) as Hlen.
  cbn [Nat.sub] in Hlen. rewrite Nat.min_l in Hlen by exact Htwo.
  exists (traces_from X_tr y_tr 0 (unique (relabel n_samples y0))).
  split; [| split; [exact Hlen | rewrite Hlen; exact Htwo]].
  rewrite Hlen, Nat.min_l by exact Htwo.
  destruct (Nat.leb_spec (List.length (unique (relabel n_samples y0))) 2);
    [reflexivity | lia].
Qed.


End ClassPlotProperties.

(** ** The calibration curves *)

Lemma take_Forall2 (A : Type) (a : list A) (order : list nat) :
  forall l, take a order = Ok l ->
            Forall2 (fun i x => nth_error a i = Some x) order l.
Proof.
  induction order as [| i order IH]; intros l H; cbn [take] in H.
  - injection H as <-. constructor.
  - destruct (nth_error a i) as [x |] eqn:Hx; [| discriminate H].
    destruct (take a order) as [l' | e]; [| discriminate H].
    injection H as <-. constructor; [exact Hx | apply IH; reflexivity].
Qed.

Lemma take_defined (A : Type) (a : list A) (order : list nat) :
  Forall (fun i => (i < List.length a)%nat) order ->
  exists l, take a order = Ok l.
Proof.
  induction 1 as [| i order Hi _ IH]; [exists []; reflexivity |].
  destruct IH as (l & Hl). cbn [take].
  destruct (nth_error a i) as [x |] eqn:Hx.
  - rewrite Hl. exists (x :: l). reflexivity.
  - apply nth_error_None in Hx. lia.
Qed.

Lemma map_nth_indices (A : Type) (d : A) (a : list A) :
  map (fun i => nth i a d) (seq 0 (List.length a)) = a.
Proof.
  induction a as [| x a IH]; [reflexivity |].
  cbn [List.length seq map nth]. f_equal.
  rewrite <- seq_shift, map_map. exact IH.
Qed.

Lemma take_permutation (A : Type) (d : A) (a : list A) (order : list nat) l :
  take a order = Ok l ->
  Permutation order (seq 0 (List.length a)) ->
  Permutation l a.
Proof.
  intros Htake Hperm.
  assert (Hl : l = map (fun i => nth i a d) order).
  { apply take_Forall2 in Htake. clear Hperm.
    induction Htake as [| i x order l Hx _ IH]; [reflexivity |].
    cbn [map]. f_equal; [| exact IH].
    symmetry. apply nth_error_nth. exact Hx. }
  rewrite Hl.
  apply (Permutation_trans (Permutation_map (fun i => nth i a d) Hperm)).
  rewrite map_nth_indices. apply Permutation_refl.
Qed.

Lemma chunks_length (A : Type) (width count : nat) :
  forall a : list A, List.length (chunks width count a) = count.
Proof.
  induction count as [| count IH]; intros a; [reflexivity |].
  cbn [chunks List.length]. rewrite IH. reflexivity.
Qed.

Lemma chunks_rows (A : Type) (width count : nat) :
  forall a : list A,
    (width * count <= List.length a)%nat ->
    Forall (fun row => List.length row = width) (chunks width count a).
Proof.
  induction count as [| count IH]; intros a Hlen; [constructor |].
  cbn [chunks]. constructor.
  - rewrite length_firstn. lia.
  - apply IH. rewrite length_skipn. lia.
Qed.

Lemma concat_chunks (A : Type) (width count : nat) :
  forall a : list A,
    (width * count = List.length a)%nat ->
    concat (chunks width count a) = a.
Proof.
  induction count as [| count IH]; intros a Hlen.
  - destruct a; [reflexivity | cbn in Hlen; lia].
  - cbn [chunks concat]. rewrite IH by (rewrite length_skipn; lia).
    apply firstn_skipn.
Qed.

Lemma reshape_25 (A : Type) (a : list A) :
  reshape_rows 25 a
  = if (List.length a mod 25 =? 0)%nat
    then Ok (chunks (List.length a / 25) 25 a)
    else Raise ValueError.
Proof.
  unfold reshape_rows. cbn [Nat.eqb orb].
  destruct (List.length a mod 25 =? 0)%nat; reflexivity.
Qed.








(** Sample [2 j + 1] of the 51 samples from 0 to [25 w] lies strictly
    between [j w] and [(j + 1) w]. *)
Lemma bin_bound (j w : nat) :
  (0 < w)%nat ->
  inject_Z (Z.of_nat (j * w))
  < 0 + inject_Z (Z.of_nat (2 * j + 1))
        * ((inject_Z (Z.of_nat (25 * w)) - 0) / inject_Z (Z.of_nat 50)) /\
  0 + inject_Z (Z.of_nat (2 * j + 1))
      * ((inject_Z (Z.of_nat (25 * w)) - 0) / inject_Z (Z.of_nat 50))
  < inject_Z (Z.of_nat ((j + 1) * w)).
Proof.
  intros Hw.
  assert (HW : 0 < inject_Z (Z.of_nat w)).
  { unfold Qlt, inject_Z. cbn [Qnum Qden]. lia. }
  rewrite !Nat2Z.inj_mul, !Nat2Z.inj_add, !Nat2Z.inj_mul.
  rewrite !inject_Z_mult, !inject_Z_plus, !inject_Z_mult.
  change (inject_Z (Z.of_nat 50)) with 50.
  change (inject_Z (Z.of_nat 25)) with 25.
  change (inject_Z (Z.of_nat 2)) with 2.
  change (inject_Z (Z.of_nat 1)) with 1.
  generalize dependent (inject_Z (Z.of_nat w)). intros W HW.
  generalize (inject_Z (Z.of_nat j)). intros J.
  setoid_replace (0 + (2 * J + 1) * ((25 * W - 0) / 50))
    with (J * W + W * (1 # 2)) by field.
  split; lra.
Qed.

Section CalibrationPlotProperties.

Variable format_1_3f : Q -> string.
Variable lexsort : list Q -> list nat.
Variable prob_pos_clf prob_pos_isotonic prob_pos_sigmoid : list Q.
Variable y_te : list Z.
Variable clf_score clf_isotonic_score clf_sigmoid_score : Q.

(** X12: Every abscissa of the empirical curve lies strictly inside the range
    of positions that its bin averages: with the test set a positive
    multiple of 25 in size, [w] instances to a bin, the abscissa of bin [j]
    lies between [j * w], the position of the first instance of the bin,
    and [(j + 1) * w], the position of the first instance of the next.  So
    the abscissas increase strictly and stay between 0 and the number of
    test instances. *)
Theorem empirical_x_inside_bins :
  y_te <> [] ->
  (List.length y_te mod 25 = 0)%nat ->
  Forall2 (fun j x =>
             inject_Z (Z.of_nat (j * (List.length y_te / 25))) < x /\
             x < inject_Z (Z.of_nat ((j + 1) * (List.length y_te / 25))))
    (seq 0 25) (empirical_x y_te).
Proof.
  intros Hne Hmod. unfold empirical_x.
  set (w := (List.length y_te / 25)%nat).
  assert (Hw : (0 < w)%nat /\ List.length y_te = (25 * w)%nat).
  { pose proof (Nat.div_mod (List.length y_te) 25) as Hdm. fold w in Hdm.
    destruct y_te; [congruence |]. cbn [List.length] in *. lia. }
  destruct Hw as [Hw ->]. clearbody w.
  cbv [linspace odd_items seq map Nat.sub].
  repeat (apply Forall2_cons;
          [cbv beta;
           match goal with
           | |- inject_Z (Z.of_nat (?j * _)) < _ /\ _ =>
               exact (@bin_bound j w Hw)
           end |]).
  apply Forall2_nil.
Qed.

(** The empirical curve, once the sorted labels are there. *)
Lemma empirical_y_of_sorted sorted :
  take y_te (order lexsort prob_pos_clf) = Ok sorted ->
  empirical_y lexsort prob_pos_clf y_te
  = if (List.length sorted mod 25 =? 0)%nat
    then Ok (row_means (chunks (List.length sorted / 25) 25 sorted))
    else Raise ValueError.
Proof.
  intros Hs. unfold empirical_y. rewrite Hs, reshape_25.
  destruct (List.length sorted mod 25 =? 0)%nat; reflexivity.
Qed.

Lemma empirical_y_length means :
  empirical_y lexsort prob_pos_clf y_te = Ok means ->
  List.length means = 25%nat.
Proof.
  unfold empirical_y.
  destruct (take y_te (order lexsort prob_pos_clf)) as [sorted | e];
    [| discriminate].
  rewrite reshape_25.
  destruct (List.length sorted mod 25 =? 0)%nat; [| discriminate].
  intros H.
  assert (Hm : means
               = row_means (chunks (List.length sorted / 25) 25 sorted))
    by congruence.
  rewrite Hm. unfold row_means. rewrite length_map, chunks_length.
  reflexivity.
Qed.

(** X13: With an order of valid indices the empirical curve exists exactly when
    the number of sorted instances is a multiple of 25: then it has 25
    values, otherwise the reshape raises a [ValueError]. *)
Theorem empirical_needs_multiple_of_25 :
  Forall (fun i => (i < List.length y_te)%nat) (order lexsort prob_pos_clf) ->
  if (List.length (order lexsort prob_pos_clf) mod 25 =? 0)%nat
  then exists means,
         empirical_y lexsort prob_pos_clf y_te = Ok means /\
         List.length means = 25%nat
  else empirical_y lexsort prob_pos_clf y_te = Raise ValueError.
Proof.
  intros Hvalid. unfold empirical_y.
  destruct (@take_defined _ _ _ Hvalid) as (sorted & Hs). rewrite Hs.
  pose proof (Forall2_length (@take_Forall2 _ _ _ _ Hs)) as Hlen.
  rewrite reshape_25, <- Hlen.
  destruct (List.length (order lexsort prob_pos_clf) mod 25 =? 0)%nat;
    [| reflexivity].
  eexists. split; [reflexivity |].
  unfold row_means. rewrite length_map, chunks_length. reflexivity.
Qed.

(** Shared by the two theorems on the values of the empirical curve: the
    rows of a reshape that succeeded on a sorted array that is not
    empty. *)
Lemma empirical_rows means :
  order lexsort prob_pos_clf <> [] ->
  empirical_y lexsort prob_pos_clf y_te = Ok means ->
  exists sorted width,
    take y_te (order lexsort prob_pos_clf) = Ok sorted /\
    means = row_means (chunks width 25 sorted) /\
    (0 < width)%nat /\ (width * 25 = List.length sorted)%nat.
Proof.
  intros Hne H. unfold empirical_y in H.
  destruct (take y_te (order lexsort prob_pos_clf)) as [sorted | e] eqn:Hs;
    [| discriminate H].
  pose proof (Forall2_length (@take_Forall2 _ _ _ _ Hs)) as Hlen.
  rewrite reshape_25 in H.
  destruct (Nat.eqb_spec (List.length sorted mod 25) 0) as [Hmod | _];
    [| discriminate H].
  injection H as <-. exists sorted, (List.length sorted / 25)%nat.
  split; [reflexivity |]. split; [reflexivity |].
  assert (Hpos : (0 < List.length sorted)%nat).
  { rewrite <- Hlen. destruct (order lexsort prob_pos_clf);
      [congruence | cbn; lia]. }
  pose proof (Nat.div_mod (List.length sorted) 25) as Hdm. lia.
Qed.

(** X14: For test labels 0 and 1 every value of the empirical curve is a
    fraction of positives: it lies in the interval from 0 to 1 (the test
    set not being empty). *)
Theorem empirical_values_are_fractions means :
  Forall (fun l => l = 0%Z \/ l = 1%Z) y_te ->
  order lexsort prob_pos_clf <> [] ->
  empirical_y lexsort prob_pos_clf y_te = Ok means ->
  Forall in_unit means.
Proof.
  intros Hbin Hne H.
  destruct (empirical_rows Hne H) as (sorted & width & Hs & -> & Hw & Hlen).
  assert (Hsorted : Forall (fun l => l = 0%Z \/ l = 1%Z) sorted).
  { apply take_Forall2 in Hs. rewrite Forall_forall in Hbin.
    clear - Hs Hbin. induction Hs as [| i x o l Hx _ IH]; constructor;
      [apply Hbin; eapply nth_error_In; exact Hx | exact IH]. }
  pose proof (chunks_rows width 25 sorted) as Hrows.
  specialize (Hrows ltac:(lia)).
  rewrite <- (concat_chunks width 25 sorted Hlen) in Hsorted.
  revert Hrows Hsorted. generalize (chunks width 25 sorted). intros rows.
  induction rows as [| row rows IH]; intros Hrows Hsorted; [constructor |].
  inversion Hrows as [| r rs Hrow Hrows']; subst.
  cbn [concat] in Hsorted. apply Forall_app in Hsorted.
  destruct Hsorted as [Hrow01 Hrest].
  cbn [row_means map]. constructor; [| apply IH; assumption].
  apply mean_in_unit.
  - destruct row; [cbn in Hw; lia | discriminate].
  - unfold as_float. apply Forall_map.
    eapply Forall_impl; [| exact Hrow01].
    intros l [-> | ->]; cbn; split; discriminate.
Qed.


(** X16: When the cell completes it has built four traces, and the three
    probability curves are aligned: the point at position [j] of each is
    the probability that classifier gave to test instance [order[j]].
    The fourth trace has the 25 bin centres as abscissas. *)
Theorem calibration_curves_aligned traces :
  calibration_plot format_1_3f lexsort prob_pos_clf prob_pos_isotonic
    prob_pos_sigmoid y_te clf_score clf_isotonic_score clf_sigmoid_score
  = Ok traces ->
  exists t1 t2 t3 t4,
    traces = [t1; t2; t3; t4] /\
    Forall2 (fun i v => exists p, nth_error prob_pos_clf i = Some p /\
                                  v = Num p)
      (order lexsort prob_pos_clf) (lt_y t1) /\
    Forall2 (fun i v => exists p, nth_error prob_pos_isotonic i = Some p /\
                                  v = Num p)
      (order lexsort prob_pos_clf) (lt_y t2) /\
    Forall2 (fun i v => exists p, nth_error prob_pos_sigmoid i = Some p /\
                                  v = Num p)
      (order lexsort prob_pos_clf) (lt_y t3) /\
    lt_x t4 = Some (empirical_x y_te) /\
    List.length (empirical_x y_te) = List.length (lt_y t4).
Proof.
  intros H. unfold calibration_plot in H.
  destruct (take prob_pos_clf (order lexsort prob_pos_clf))
    as [p1 | e] eqn:H1; [| discriminate H].
  destruct (take prob_pos_isotonic (order lexsort prob_pos_clf))
    as [p2 | e] eqn:H2; [| discriminate H].
  destruct (take prob_pos_sigmoid (order lexsort prob_pos_clf))
    as [p3 | e] eqn:H3; [| discriminate H].
  destruct (empirical_y lexsort prob_pos_clf y_te) as [means | e] eqn:H4;
    [| discriminate H].
  injection H as <-. do 4 eexists. split; [reflexivity |].
  cbn [lt_y lt_x].
  assert (Hal : forall (a : list Q) l,
            take a (order lexsort prob_pos_clf) = Ok l ->
            Forall2 (fun i v => exists p, nth_error a i = Some p /\ v = Num p)
              (order lexsort prob_pos_clf) (map Num l)).
  { intros a l Hl. apply take_Forall2 in Hl.
    clear - Hl. induction Hl as [| i x o l Hx _ IH]; cbn [map]; constructor;
      [exists x; split; [exact Hx | reflexivity] | exact IH]. }
  split; [apply Hal, H1 |]. split; [apply Hal, H2 |].
  split; [apply Hal, H3 |]. split; [reflexivity |].
  rewrite (empirical_y_length H4). reflexivity.
Qed.

(** X17: The cell completes on what the cell "Calculations" hands it: three
    probability arrays and the test labels of one length that is a multiple
    of 25, and an order that is a permutation of their indices.  Each
    probability curve then shows every test instance once, and the traces
    are named after the three scores and "Empirical". *)
Theorem calibration_plot_completes :
  Permutation (order lexsort prob_pos_clf)
    (seq 0 (List.length prob_pos_clf)) ->
  List.length prob_pos_isotonic = List.length prob_pos_clf ->
  List.length prob_pos_sigmoid = List.length prob_pos_clf ->
  List.length y_te = List.length prob_pos_clf ->
  (List.length y_te mod 25 = 0)%nat ->
  exists t1 t2 t3 t4,
    calibration_plot format_1_3f lexsort prob_pos_clf prob_pos_isotonic
      prob_pos_sigmoid y_te clf_score clf_isotonic_score clf_sigmoid_score
    = Ok [t1; t2; t3; t4] /\
    Permutation (lt_y t1) (map Num prob_pos_clf) /\
    Permutation (lt_y t2) (map Num prob_pos_isotonic) /\
    Permutation (lt_y t3) (map Num prob_pos_sigmoid) /\
    map lt_name [t1; t2; t3; t4]
    = [("No calibration (" ++ format_1_3f clf_score ++ ")")%string;
       ("Isotonic calibration ("
        ++ format_1_3f clf_isotonic_score ++ ")")%string;
       ("Sigmoid calibration ("
        ++ format_1_3f clf_sigmoid_score ++ ")")%string;
       "Empirical"%string].
Proof.
  intros Hperm Hiso Hsig Hy Hmod.
  assert (Hin : forall i, In i (order lexsort prob_pos_clf) ->
                          (i < List.length prob_pos_clf)%nat).
  { intros i Hi. apply (Permutation_in _ Hperm), in_seq in Hi. lia. }
  assert (Hvalid : forall (A : Type) (a : list A),
            List.length a = List.length prob_pos_clf ->
            exists l, take a (order lexsort prob_pos_clf) = Ok l /\
                      forall d : A, Permutation l a).
  { intros A a Ha.
    destruct (@take_defined A a (order lexsort prob_pos_clf)) as (l & Hl).
    - apply Forall_forall. intros i Hi. rewrite Ha. apply Hin, Hi.
    - exists l. split; [exact Hl |]. intros d.
      apply (@take_permutation A d a _ l Hl). rewrite Ha. exact Hperm. }
  destruct (Hvalid Q prob_pos_clf eq_refl) as (p1 & H1 & Hp1).
  destruct (Hvalid Q prob_pos_isotonic Hiso) as (p2 & H2 & Hp2).
  destruct (Hvalid Q prob_pos_sigmoid Hsig) as (p3 & H3 & Hp3).
  destruct (Hvalid Z y_te Hy) as (sorted & Hs & Hps).
  pose proof (Permutation_length (Hps 0%Z)) as Hsl.
  unfold calibration_plot.
  rewrite H1, H2, H3, (empirical_y_of_sorted Hs), Hsl, Hmod.
  cbn [Nat.eqb]. do 4 eexists. split; [reflexivity |]. cbn [lt_y lt_name map].
  split; [apply Permutation_map, (Hp1 0) |].
  split; [apply Permutation_map, (Hp2 0) |].
  split; [apply Permutation_map, (Hp3 0) | reflexivity].
Qed.

End CalibrationPlotProperties.

(** ** The properties on small inputs *)

(** Six labels of three classes, relabelled for [n_samples = 6]: the label
    at position 4 is 1. *)
Lemma relabel_overwrites_every_label_witness :
  (4 < List.length y_three)%nat /\
  nth_error (relabel 6 y_three) 4 = Some 1%Z.
Proof.
  assert (H : (4 < List.length y_three)%nat) by (cbn; lia).
  split; [exact H |].
  exact (proj2 (relabel_overwrites_every_label 6 y_three) 4%nat H).
Defined.

(** Three classes among six labels: the traces of classes 0 and 1, then the
    [IndexError]. *)
Lemma class_plot_third_class_raises_witness :
  List.length X_six = List.length y_three /\
  List.length sw_six = List.length y_three /\
  (2 < List.length (unique y_three))%nat /\
  exists t1 t2,
    class_plot (fun q : Q => q) X_six y_three sw_six y_three
    = ([t1; t2], 2%nat, Raise IndexError) /\
    map ct_name [t1; t2]
    = map (fun l => ("Class " ++ str l)%string) (firstn 2 (unique y_three)).
Proof.
  assert (H1 : List.length X_six = List.length y_three) by reflexivity.
  assert (H2 : List.length sw_six = List.length y_three) by reflexivity.
  assert (H3 : (2 < List.length (unique y_three))%nat) by (cbn; lia).
  split; [exact H1 |]. split; [exact H2 |]. split; [exact H3 |].
  exact (@class_plot_third_class_raises Q (fun q : Q => q) X_six y_three
           sw_six y_three H1 H2 H3).
Defined.

(** The three classes relabelled for [n_samples = 6], with a training part
    of six rows. *)
Lemma relabelled_classes_have_a_colour_witness :
  List.length X_six = List.length y_two /\
  List.length sw_six = List.length y_two /\
  exists data_plot,
    class_plot (fun q : Q => q) X_six y_two sw_six (relabel 6 y_three)
    = (data_plot, List.length data_plot, Ok tt) /\
    List.length data_plot = List.length (unique (relabel 6 y_three)) /\
    (List.length data_plot <= 2)%nat.
Proof.
  assert (H1 : List.length X_six = List.length y_two) by reflexivity.
  assert (H2 : List.length sw_six = List.length y_two) by reflexivity.
  split; [exact H1 |]. split; [exact H2 |].
  exact (@relabelled_classes_have_a_colour Q (fun q : Q => q) X_six y_two
           sw_six 6%nat y_three H1 H2).
Defined.


(** Fifty test instances, two to a bin: the abscissa of bin [j] lies
    between [2 j] and [2 j + 2]. *)
Lemma empirical_x_inside_bins_witness :
  y_fifty <> [] /\
  (List.length y_fifty mod 25 = 0)%nat /\
  Forall2 (fun j x =>
             inject_Z (Z.of_nat (j * (List.length y_fifty / 25))) < x /\
             x < inject_Z (Z.of_nat ((j + 1) * (List.length y_fifty / 25))))
    (seq 0 25) (empirical_x y_fifty).
Proof.
  assert (H1 : y_fifty <> []) by discriminate.
  assert (H2 : (List.length y_fifty mod 25 = 0)%nat) by reflexivity.
  split; [exact H1 |]. split; [exact H2 |].
  exact (@empirical_x_inside_bins y_fifty H1 H2).
Defined.

Lemma reverse_order_valid :
  Forall (fun i => (i < List.length y_fifty)%nat)
    (order reverse_order p_fifty).
Proof.
  apply Forall_forall. intros i Hi. unfold order, reverse_order in Hi.
  apply in_rev, in_seq in Hi.
  change (List.length p_fifty) with 50%nat in Hi.
  change (List.length y_fifty) with 50%nat. lia.
Defined.

(** Fifty test labels in reversed order: 25 values. *)
Lemma empirical_needs_multiple_of_25_witness :
  Forall (fun i => (i < List.length y_fifty)%nat)
    (order reverse_order p_fifty) /\
  exists means,
    empirical_y reverse_order p_fifty y_fifty = Ok means /\
    List.length means = 25%nat.
Proof.
  split; [exact reverse_order_valid |].
  exact (@empirical_needs_multiple_of_25 reverse_order p_fifty y_fifty
           reverse_order_valid).
Defined.

(** The 25 values on the fifty labels, bins of two, are 0 and 1/2. *)
Lemma empirical_values_are_fractions_witness :
  Forall (fun l => l = 0%Z \/ l = 1%Z) y_fifty /\
  order reverse_order p_fifty <> [] /\
  empirical_y reverse_order p_fifty y_fifty = Ok means_fifty /\
  Forall in_unit means_fifty.
Proof.
  assert (H1 : Forall (fun l => l = 0%Z \/ l = 1%Z) y_fifty).
  { cbv [y_fifty seq map Nat.modulo Nat.divmod Nat.eqb snd Nat.sub].
    repeat (apply Forall_cons;
            [first [left; reflexivity | right; reflexivity] |]).
    apply Forall_nil. }
  assert (H2 : order reverse_order p_fifty <> []).
  { intros H. apply (f_equal (@List.length nat)) in H.
    unfold order, reverse_order in H. rewrite length_rev, length_seq in H.
    discriminate H. }
  assert (H3 : empirical_y reverse_order p_fifty y_fifty = Ok means_fifty)
    by reflexivity.
  split; [exact H1 |]. split; [exact H2 |]. split; [exact H3 |].
  exact (@empirical_values_are_fractions reverse_order p_fifty y_fifty
           means_fifty H1 H2 H3).
Defined.


(** The four traces on the fifty instances. *)
Lemma calibration_curves_aligned_witness :
  calibration_plot fixed_format reverse_order p_fifty p_fifty p_fifty
    y_fifty 0 0 0
  = Ok traces_fifty /\
  exists t1 t2 t3 t4,
    traces_fifty = [t1; t2; t3; t4] /\
    Forall2 (fun i v => exists p, nth_error p_fifty i = Some p /\ v = Num p)
      (order reverse_order p_fifty) (lt_y t1) /\
    Forall2 (fun i v => exists p, nth_error p_fifty i = Some p /\ v = Num p)
      (order reverse_order p_fifty) (lt_y t2) /\
    Forall2 (fun i v => exists p, nth_error p_fifty i = Some p /\ v = Num p)
      (order reverse_order p_fifty) (lt_y t3) /\
    lt_x t4 = Some (empirical_x y_fifty) /\
    List.length (empirical_x y_fifty) = List.length (lt_y t4).
Proof.
  assert (H : calibration_plot fixed_format reverse_order p_fifty p_fifty
                p_fifty y_fifty 0 0 0
              = Ok traces_fifty) by reflexivity.
  split; [exact H |].
  exact (@calibration_curves_aligned fixed_format reverse_order p_fifty
           p_fifty p_fifty y_fifty 0 0 0 traces_fifty H).
Defined.


(** The four traces on the fifty instances: the cell completes. *)
Lemma calibration_plot_completes_witness :
  Permutation (order reverse_order p_fifty) (seq 0 (List.length p_fifty)) /\
  List.length p_fifty = List.length p_fifty /\
  List.length y_fifty = List.length p_fifty /\
  (List.length y_fifty mod 25 = 0)%nat /\
  exists t1 t2 t3 t4,
    calibration_plot fixed_format reverse_order p_fifty p_fifty p_fifty
      y_fifty 0 0 0
    = Ok [t1; t2; t3; t4] /\
    Permutation (lt_y t1) (map Num p_fifty) /\
    Permutation (lt_y t2) (map Num p_fifty) /\
    Permutation (lt_y t3) (map Num p_fifty) /\
    map lt_name [t1; t2; t3; t4]
    = [("No calibration (" ++ fixed_format 0 ++ ")")%string;
       ("Isotonic calibration (" ++ fixed_format 0 ++ ")")%string;
       ("Sigmoid calibration (" ++ fixed_format 0 ++ ")")%string;
       "Empirical"%string].
Proof.
  assert (H1 : Permutation (order reverse_order p_fifty)
                 (seq 0 (List.length p_fifty))).
  { change (Permutation (rev (seq 0 50)) (seq 0 50)).
    apply Permutation_sym, Permutation_rev. }
  assert (H2 : List.length p_fifty = List.length p_fifty) by reflexivity.
  assert (H3 : List.length y_fifty = List.length p_fifty) by reflexivity.
  assert (H4 : (List.length y_fifty mod 25 = 0)%nat) by reflexivity.
  split; [exact H1 |]. split; [exact H2 |]. split; [exact H3 |].
  split; [exact H4 |].
  exact (@calibration_plot_completes fixed_format reverse_order p_fifty
           p_fifty p_fifty y_fifty 0 0 0 H1 H2 H2 H3 H4).
Defined.
